(** * Indian + Hollywood catalogue add-on (src/addon.js)

    A shallow embedding of the catalogue handler of [src/addon.js]
    (version 3.0.1 of the add-on) and of the helpers it calls, with the
    properties of its paging, caching, aggregation and formatting logic.
    The two other source files are versions 2.2.0 and 2.0.0 of the same
    add-on, without page-size learning and without times to live of their
    own; the embedding follows [src/addon.js].  The meta handler (lines
    373-427) is embedded after the catalogue handler, on the part of the
    cache that it reads.

    Conventions of the embedding.
    - JavaScript numbers that the handler computes with (the client offset
      [skip], page sizes, page numbers) are integers; they are modelled in
      [Z], and the non-finite results of a division ([NaN], [Infinity]) are
      kept as separate constructors of [JsNum].  Offsets are assumed to be
      below 2^53, where the floating-point quotient has the same floor as
      the exact one.
    - A field that may be [undefined] or [null] is an [option]; JavaScript
      truthiness of such a field is written out ([truthy_str], [or_str]).
    - The upstream service (TMDB, reached through [axios.get]) is an oracle
      [Upstream]: a call either fails (the promise rejects, also on a
      timeout) or yields the response data.
    - One request runs at one instant [now] (milliseconds). *)

From Stdlib Require Import ZArith QArith Ascii String Sorted.
From stdpp Require Import gmap strings list fin_maps pretty sorting.

#[local] Set Warnings "-clear-no-such-hyp".

Local Open Scope string_scope.
Local Open Scope list_scope.
Local Open Scope Z_scope.

(** ** JavaScript values used by the handler *)

(** [!!s] of a possibly absent string: present and not empty. *)
Definition truthy_str (s : option string) : bool :=
  match s with
  | Some s => negb (String.eqb s "")
  | None => false
  end.

(** [a || b] on possibly absent strings, with [b] a string. *)
Definition or_str (a : option string) (b : string) : string :=
  match a with
  | Some s => if String.eqb s "" then b else s
  | None => b
  end.

(** The numbers a page computation can produce. *)
Inductive JsNum :=
| Int (z : Z)
| NaN
| PosInf
| NegInf.

Global Instance JsNum_eq_dec : EqDecision JsNum.
Proof. solve_decision. Defined.

(** Template-literal rendering of a number. *)
Definition render_num (n : JsNum) : string :=
  match n with
  | Int z => pretty z
  | NaN => "NaN"
  | PosInf => "Infinity"
  | NegInf => "-Infinity"
  end.

(** ** Data model *)

(** A record of an upstream result list (a movie or a series). *)
Module Raw.
Record t := mk {
  id : option Z;
  poster_path : option string;
  backdrop_path : option string;
  original_language : option string;
  release_date : option string;
  first_air_date : option string;
  title : option string;
  original_title : option string;
  name : option string;
  original_name : option string;
  overview : option string;
  vote_average : option Q
}.
End Raw.

(** A formatted catalogue item, as [formatMovie] and [formatSeries] build it. *)
Module Meta.
Record t := mk {
  id : string;
  type : string;
  name : string;
  poster : string;
  posterShape : string;
  background : option string;
  description : string;
  releaseInfo : option string;
  imdbRating : string;
  language : string
}.
End Meta.

(** A translation entry and a release-date entry of an item detail. *)
Record Translation := { iso_639_1 : option string }.
Record ReleaseDates := { iso_3166_1 : option string }.

(** The data of [GET /movie/{id}?append_to_response=translations,release_dates]. *)
Record Detail := {
  detail_original_language : option string;
  detail_translations : option (list Translation);
  detail_release_dates : option (list ReleaseDates)
}.

(** The two kinds of item, [movie] and [series]. *)
Inductive Kind := Movie | Series.

Global Instance Kind_eq_dec : EqDecision Kind.
Proof. solve_decision. Defined.

Global Instance Kind_countable : Countable Kind.
Proof.
  refine (inj_countable' (fun k => match k with Movie => false | Series => true end)
                         (fun b => if b then Series else Movie) _).
  by intros [].
Defined.

(** ** Upstream calls *)

(** The requests the add-on sends, with the parameters that vary. *)
Inductive Call :=
| SearchMovie (query : string) (page : JsNum)
| SearchTv (query : string) (page : JsNum)
| DiscoverMovie (date_lte lang region vote_count_gte : string) (page : JsNum)
| DiscoverTv (date_lte lang vote_count_gte : string) (page : JsNum)
| ExternalIds (kind : Kind) (tmdbId : Z)
| MovieDetail (movieId : option Z).

(** The calls of the catalogue handler itself: a list query for one page. *)
Definition is_list_query (c : Call) : bool :=
  match c with
  | SearchMovie _ _ | SearchTv _ _ | DiscoverMovie _ _ _ _ _ | DiscoverTv _ _ _ _ => true
  | ExternalIds _ _ | MovieDetail _ => false
  end.

(** The upstream service.  [None] is a failed call (network error, timeout,
    error status); for a list query the answer is [response.data.results],
    for the external ids it is [response.data.imdb_id]. *)
Record Upstream := {
  list_query : Call -> option (option (list Raw.t));
  external_ids : Kind -> Z -> option (option string);
  movie_detail : option Z -> option Detail
}.

(** Whether the upstream fails on a call. *)
Definition fails (up : Upstream) (c : Call) : bool :=
  match c with
  | ExternalIds k i => if external_ids up k i is Some _ then false else true
  | MovieDetail i => if movie_detail up i is Some _ then false else true
  | _ => if list_query up c is Some _ then false else true
  end.

(** ** The TTL cache

    [const cache = new NodeCache({ stdTTL: 1800, checkperiod: 300, maxKeys: 1000 })].
    The cache is the node-cache package, which is not part of the
    repository; its [get] and [set] are modelled from the specification of
    the TTL cache ([live], [cache_set]).

    The add-on builds four families of keys: [imdb_<type>_<id>],
    [hindi_<id>], [ps_<base>] and [<base>_p<page>].  In the first two
    [<type>] is [movie] or [series] and [<id>] is the number of an item (or
    [undefined] in [hindi_<id>]): such a key starts with a word that is not
    [ps] and does not end in [_p<page>], so it meets no key of another
    family, and each of the two families is kept as a map of its own, with
    the type of value the add-on stores there.  The last two families are
    made from the catalogue id and the search text of the request, which
    are free text, and they share one map of strings, [store]. *)

(** The default time to live, in seconds. *)
Definition stdTTL : Z := 1800.

(** An entry: the value and the time, in milliseconds, up to which it is
    served. *)
Record Entry (A : Type) := { value : A; expires : Z }.
Arguments value {A}.
Arguments expires {A}.

(** What the handler keeps under [ps_<base>] and [<base>_p<page>]. *)
Inductive Stored :=
| Num (n : Z)
| Items (l : list Meta.t).

(** The state of the cache. *)
Record Cache := {
  imdb : gmap (Kind * Z) (Entry (option string));
  hindi : gmap (option Z) (Entry bool);
  store : gmap string (Entry Stored)
}.

(** The cache of a fresh process. *)
Definition empty_cache : Cache := {| imdb := ∅; hindi := ∅; store := ∅ |}.

(** Modelled from the spec: [cache.get(key)] of the TTL cache, given what
    the map holds under the key.  It yields the value of an entry that is
    present and has not expired, and [undefined] ([None]) otherwise. *)
Definition live {A} (now : Z) (e : option (Entry A)) : option A :=
  match e with
  | Some e => if now <=? expires e then Some (value e) else None
  | None => None
  end.

(** A [cache.set], by family. *)
Inductive Write :=
| WImdb (type : Kind) (tmdbId : Z) (v : option string) (ttl : option Z)
| WHindi (movieId : option Z) (v : bool) (ttl : option Z)
| WStore (key : string) (v : Stored) (ttl : option Z).

(** The entry made at [now] with the time to live [ttl], in seconds, or
    with [stdTTL] when none is given. *)
Definition mk_entry {A} (now : Z) (v : A) (ttl : option Z) : Entry A :=
  {| value := v; expires := now + default stdTTL ttl * 1000 |}.

(** Modelled from the spec: [cache.set(key, value, ttl)] of the TTL cache.
    It stores the value under the key, with the given time to live or the
    default one, and replaces an earlier entry.  The spec names no error
    condition of the cache, and the bound on the number of entries is not
    modelled. *)
Definition cache_set (now : Z) (w : Write) (c : Cache) : Cache :=
  match w with
  | WImdb t i v ttl =>
      {| imdb := <[(t, i) := mk_entry now v ttl]> (imdb c); hindi := hindi c; store := store c |}
  | WHindi i v ttl =>
      {| imdb := imdb c; hindi := <[i := mk_entry now v ttl]> (hindi c); store := store c |}
  | WStore k v ttl =>
      {| imdb := imdb c; hindi := hindi c; store := <[k := mk_entry now v ttl]> (store c) |}
  end.

(** ** Effects

    What a run does besides computing its result: the upstream calls it
    sends and the cache entries it sets, in order. *)
Inductive Event :=
| Query (c : Call)
| SetEntry (w : Write).

(** The cache after an effect, and after a list of effects. *)
Definition apply_event (now : Z) (c : Cache) (e : Event) : Cache :=
  match e with
  | Query _ => c
  | SetEntry w => cache_set now w c
  end.

Definition apply_events (now : Z) (es : list Event) (c : Cache) : Cache :=
  foldl (apply_event now) c es.

(** A computation of the handler: from the cache to a result, or to a thrown
    exception ([None]), the cache afterwards and the effects performed.  The
    cache changes made before an exception stay. *)
Definition M (A : Type) : Type := Cache -> option A * Cache * list Event.

(** A result without effects; and sequencing, where an exception of the
    first part skips the second. *)
Definition ret {A} (a : A) : M A := fun c => (Some a, c, []).

Definition bind {A B} (m : M A) (k : A -> M B) : M B :=
  fun c =>
    match m c with
    | (Some a, c1, es1) =>
        match k a c1 with
        | (r, c2, es2) => (r, c2, es1 ++ es2)
        end
    | (None, c1, es1) => (None, c1, es1)
    end.

Notation "'let!' x ':=' m 'in' k" := (bind m (fun x => k))
  (at level 10, x name, m at level 100, k at level 200).
Notation "'do!' m 'in' k" := (bind m (fun _ => k))
  (at level 10, m at level 100, k at level 200).

(** A lookup started for one item of a batch: it reads the cache as it is
    when the batch starts, and yields its result and its effects. *)
Definition Lookup (A : Type) : Type := Cache -> A * list Event.

(** Whether an effect is an upstream call. *)
Definition is_query (e : Event) : bool :=
  match e with
  | Query _ => true
  | SetEntry _ => false
  end.

(** [await Promise.all(xs.map(f))]: every [f x] runs up to its first
    [await], the upstream call, before any of them resumes, so all of them
    read the cache of the start of the batch and all calls are sent before
    an answer is stored; the results keep the order of [xs].  The answers
    are taken to arrive in the order of the calls; the entries of a batch
    are set under keys of the items, with values that the upstream and
    [now] determine, so another order of arrival gives the same cache. *)
Definition promise_all {X A} (now : Z) (f : X -> Lookup A) (xs : list X) : M (list A) :=
  fun c =>
    let rs := map (fun x => f x c) xs in
    let es := concat (map snd rs) in
    let es := filter (fun e => is_query e = true) es ++ filter (fun e => is_query e = false) es in
    (Some (map fst rs), apply_events now es c, es).

(** ** Pure helpers of the handler *)

(** The capital of a letter from a to z; any other character stays. *)
Definition upper_ascii (a : ascii) : ascii :=
  let n := nat_of_ascii a in
  if ((97 <=? n) && (n <=? 122))%nat then ascii_of_nat (n - 32) else a.

(** [s.toUpperCase()], for a string of ASCII characters. *)
Fixpoint toUpperCase (s : string) : string :=
  match s with
  | EmptyString => EmptyString
  | String a s => String (upper_ascii a) (toUpperCase s)
  end.

(** The table of [getLanguageLabel].  (The names that every JavaScript
    object inherits, such as [constructor], are no language codes and are
    not looked at.) *)
Definition language_map : list (string * string) :=
  [("hi", "Hindi"); ("en", "English"); ("ta", "Tamil"); ("te", "Telugu");
   ("ml", "Malayalam"); ("kn", "Kannada"); ("mr", "Marathi"); ("bn", "Bengali");
   ("pa", "Punjabi")].

(** [map[k]] on the table. *)
Fixpoint assoc (k : string) (l : list (string * string)) : option string :=
  match l with
  | [] => None
  | (k', v) :: l => if String.eqb k k' then Some v else assoc k l
  end.

(** [getLanguageLabel] (lines 66-72). *)
Definition getLanguageLabel (lang : string) : string :=
  match assoc lang language_map with
  | Some label => label
  | None => toUpperCase lang
  end.

(** [xs.filter((_, idx) => checks[idx])]. *)
Fixpoint keep_checked {A} (xs : list A) (checks : list bool) : list A :=
  match xs, checks with
  | x :: xs, b :: checks => if b then x :: keep_checked xs checks else keep_checked xs checks
  | _, _ => []
  end.

(** [a.includes(x)] for a possibly absent string [x]. *)
Definition includes (a : list string) (x : option string) : bool :=
  match x with
  | Some x => existsb (String.eqb x) a
  | None => false
  end.

(** [x === 'lit'] for a possibly absent string. *)
Definition is_str (x : option string) (lit : string) : bool :=
  match x with
  | Some x => String.eqb x lit
  | None => false
  end.

(** *** Deduplication (lines 325-332) *)

(** The loop over [allMovies] with its two variables, the set [seenIds]
    and the list [uniqueMovies]. *)
Fixpoint dedup_loop (allMovies : list Raw.t) (seenIds : gset (option Z))
    (uniqueMovies : list Raw.t) : list Raw.t :=
  match allMovies with
  | [] => uniqueMovies
  | movie :: rest =>
      if decide (Raw.id movie ∈ seenIds)
      then dedup_loop rest seenIds uniqueMovies
      else dedup_loop rest ({[Raw.id movie]} ∪ seenIds) (uniqueMovies ++ [movie])
  end.

(** The deduplication, from the empty set and the empty list. *)
Definition dedup (allMovies : list Raw.t) : list Raw.t := dedup_loop allMovies ∅ [].

(** *** Sorting (line 334)

    [a.localeCompare(b)] is taken on date strings, made of digits and
    hyphens, where it is the comparison by character codes.
    [Array.prototype.sort] is stable, so with this comparator its result
    is the one of a stable insertion sort. *)
Definition localeCompare (a b : string) : comparison := String.compare a b.

(** The comparator of line 334:
    [(a, b) => (b.release_date || '').localeCompare(a.release_date || '')]. *)
Definition release_cmp (a b : Raw.t) : comparison :=
  localeCompare (or_str (Raw.release_date b) "") (or_str (Raw.release_date a) "").

Section Sort.
Context {A : Type} (cmp : A -> A -> comparison).

(** [x] goes before the first item that the comparator does not put
    before it. *)
Fixpoint insert_sorted (x : A) (l : list A) : list A :=
  match l with
  | [] => [x]
  | y :: l' =>
      match cmp x y with
      | Gt => y :: insert_sorted x l'
      | _ => x :: y :: l'
      end
  end.

(** [l.sort(cmp)]. *)
Definition sort (l : list A) : list A := foldr insert_sorted [] l.
End Sort.

(** [array.slice(0, n)]. *)
Definition slice0 {A} (n : nat) (l : list A) : list A := take n l.

(** [formatted.filter(Boolean)]. *)
Definition filter_Boolean {A} (l : list (option A)) : list A := omap (fun x => x) l.

(** ** The add-on *)

(** What the handler takes from its host: the date of [getISTDate()], the
    rendering [n.toFixed(1)] of a rating, and the rendering
    [dd-mm-yyyy] that [formatReleaseDate] makes of a date string in the
    local time zone. *)
Record Host := {
  todayIST : string;
  toFixed1 : Q -> string;
  local_date : string -> string
}.

(** The arguments of a catalogue request: [type], [id], [extra.search] and
    the constant [skip] of line 199, the integer read from [extra.skip]
    (0 when it is absent or no number).  The embedding covers the offsets
    that are finite: a numeral beyond the range of doubles, which
    [parseInt] reads as an infinity, has no value here, and the
    properties that compute with an offset hold of the safe integers. *)
Record Request := {
  type : string;
  id : string;
  extra_search : option string;
  skip : Z
}.

(** What the handler resolves to.  [metas] is a list of items, except on a
    cache hit, which hands out what the cache holds under the key. *)
Record Response := {
  metas : Stored;
  cacheMaxAge : Z;
  staleRevalidate : Z;
  staleError : Z
}.

(** [{ metas, cacheMaxAge: 0, staleRevalidate: 0, staleError: 0 }]. *)
Definition respond (metas : Stored) : Response :=
  {| metas := metas; cacheMaxAge := 0; staleRevalidate := 0; staleError := 0 |}.

Section Addon.
Variable host : Host.
Variable up : Upstream.
Variable now : Z.

(** [cache.set(key, value, ttl)] from the handler. *)
Definition set_entry (w : Write) : M unit :=
  fun c => (Some tt, cache_set now w c, [SetEntry w]).

(** [(await axios.get(url, params)).data.results || []] for a list query. *)
Definition query (call : Call) : M (list Raw.t) :=
  fun c =>
    match list_query up call with
    | Some results => (Some (default [] results), c, [Query call])
    | None => (None, c, [Query call])
    end.

(** [getIMDBId] (lines 74-92). *)
Definition getIMDBId (tmdbId : Z) (type : Kind) : Lookup (option string) :=
  fun c =>
    match live now (imdb c !! (type, tmdbId)) with
    | Some cached => (cached, [])
    | None =>
        match external_ids up type tmdbId with
        | Some imdb_id =>
            let imdbId := if truthy_str imdb_id then imdb_id else None in
            (imdbId, [Query (ExternalIds type tmdbId);
                      SetEntry (WImdb type tmdbId imdbId (Some 86400))])
        | None =>
            (None, [Query (ExternalIds type tmdbId);
                    SetEntry (WImdb type tmdbId None (Some 3600))])
        end
    end.

(** [hasHindiAudio] (lines 94-138). *)
Definition hasHindiAudio (movieId : option Z) : Lookup bool :=
  fun c =>
    match live now (hindi c !! movieId) with
    | Some cached => (cached, [])
    | None =>
        match movie_detail up movieId with
        | Some data =>
            if is_str (detail_original_language data) "hi" then
              (true, [Query (MovieDetail movieId); SetEntry (WHindi movieId true (Some 86400))])
            else
              let translations := default [] (detail_translations data) in
              let hasHindiTrans := existsb (fun t => is_str (iso_639_1 t) "hi") translations in
              if hasHindiTrans then
                (true, [Query (MovieDetail movieId); SetEntry (WHindi movieId true (Some 86400))])
              else
                let releaseDates := default [] (detail_release_dates data) in
                let indiaRelease := find (fun r => is_str (iso_3166_1 r) "IN") releaseDates in
                if indiaRelease is Some _ then
                  (true, [Query (MovieDetail movieId); SetEntry (WHindi movieId true (Some 86400))])
                else
                  (false, [Query (MovieDetail movieId); SetEntry (WHindi movieId false (Some 3600))])
        | None =>
            (false, [Query (MovieDetail movieId); SetEntry (WHindi movieId false (Some 3600))])
        end
    end.

(** [formatReleaseDate] (lines 140-147). *)
Definition formatReleaseDate (dateStr : option string) : option string :=
  match dateStr with
  | Some d => if String.eqb d "" then None else Some (local_date host d)
  | None => None
  end.

(** [releaseDate || (date ? date.substring(0, 4) : undefined)]. *)
Definition releaseInfo_of (date : option string) : option string :=
  if truthy_str (formatReleaseDate date) then formatReleaseDate date
  else if truthy_str date then String.substring 0 4 <$> date
  else None.

(** [vote_average ? vote_average.toFixed(1) : '']. *)
Definition rating_of (vote_average : option Q) : string :=
  match vote_average with
  | Some v => if Qeq_bool v 0 then "" else toFixed1 host v
  | None => ""
  end.

(** [path ? `${base}${path}` : undefined]. *)
Definition image (base : string) (path : option string) : option string :=
  if truthy_str path then Some (base +:+ or_str path "") else None.

(** The two bases of image addresses. *)
Definition w500 : string := "https://image.tmdb.org/t/p/w500".
Definition original : string := "https://image.tmdb.org/t/p/original".

(** [formatMovie] (lines 149-171). *)
Definition formatMovie (movie : Raw.t) : Lookup (option Meta.t) :=
  fun c =>
    if negb (truthy_str (Raw.poster_path movie)) then (None, []) else
    match Raw.id movie with
    | Some tmdbId =>
        if tmdbId =? 0 then (None, []) else
        let '(imdbId, es) := getIMDBId tmdbId Movie c in
        if negb (truthy_str imdbId) then (None, es) else
        (Some {| Meta.id := or_str imdbId "";
                 Meta.type := "movie";
                 Meta.name := or_str (Raw.title movie) (or_str (Raw.original_title movie) "Unknown");
                 Meta.poster := w500 +:+ or_str (Raw.poster_path movie) "";
                 Meta.posterShape := "poster";
                 Meta.background := image original (Raw.backdrop_path movie);
                 Meta.description := or_str (Raw.overview movie) "No description";
                 Meta.releaseInfo := releaseInfo_of (Raw.release_date movie);
                 Meta.imdbRating := rating_of (Raw.vote_average movie);
                 Meta.language := getLanguageLabel (or_str (Raw.original_language movie) "") |},
         es)
    | None => (None, [])
    end.

(** [formatSeries] (lines 173-195). *)
Definition formatSeries (series : Raw.t) : Lookup (option Meta.t) :=
  fun c =>
    if negb (truthy_str (Raw.poster_path series)) then (None, []) else
    match Raw.id series with
    | Some tmdbId =>
        if tmdbId =? 0 then (None, []) else
        let '(imdbId, es) := getIMDBId tmdbId Series c in
        if negb (truthy_str imdbId) then (None, es) else
        (Some {| Meta.id := or_str imdbId "";
                 Meta.type := "series";
                 Meta.name := or_str (Raw.name series) (or_str (Raw.original_name series) "Unknown");
                 Meta.poster := w500 +:+ or_str (Raw.poster_path series) "";
                 Meta.posterShape := "poster";
                 Meta.background := image original (Raw.backdrop_path series);
                 Meta.description := or_str (Raw.overview series) "No description";
                 Meta.releaseInfo := releaseInfo_of (Raw.first_air_date series);
                 Meta.imdbRating := rating_of (Raw.vote_average series);
                 Meta.language := getLanguageLabel (or_str (Raw.original_language series) "") |},
         es)
    | None => (None, [])
    end.

(** [(await Promise.all(items.map(format))).filter(Boolean)]. *)
Definition format_all (format : Raw.t -> Lookup (option Meta.t)) (items : list Raw.t)
    : M (list Meta.t) :=
  let! formatted := promise_all now format items in
  ret (filter_Boolean formatted).

(** *** The catalogue handler (lines 197-371) *)

(** [extra.search || '']. *)
Definition searchQuery (req : Request) : string := or_str (extra_search req) "".

(** The key base of the catalogue and search combination (line 202), and
    the key of its page size (line 203). *)
Definition pageSizeKeyBase (req : Request) : string :=
  if String.eqb (searchQuery req) "" then id req
  else id req +:+ "_s_" +:+ searchQuery req.

Definition pageSizeKey (req : Request) : string := "ps_" +:+ pageSizeKeyBase req.

(** [cache.get(pageSizeKey) || 20]. *)
Definition pageSize (req : Request) (c : Cache) : Stored :=
  match live now (store c !! pageSizeKey req) with
  | Some (Num n) => if n =? 0 then Num 20 else Num n
  | Some (Items l) => Items l
  | None => Num 20
  end.

(** [Math.floor(skip / pageSize) + 1].  A list in the place of the page
    size is converted to a number by the division: the empty list to 0,
    any other list of items to [NaN]. *)
Definition upstreamPage (skip : Z) (pageSize : Stored) : JsNum :=
  match pageSize with
  | Num n =>
      if n =? 0 then (if skip =? 0 then NaN else if 0 <? skip then PosInf else NegInf)
      else Int (skip / n + 1)
  | Items [] => if skip =? 0 then NaN else if 0 <? skip then PosInf else NegInf
  | Items (_ :: _) => NaN
  end.

(** The page of a request (line 209) and the key of its result (line 211). *)
Definition page (req : Request) (c : Cache) : JsNum :=
  upstreamPage (skip req) (pageSize req c).

Definition cacheKey (req : Request) (c : Cache) : string :=
  pageSizeKeyBase req +:+ "_p" +:+ render_num (page req c).

(** [if (cached)]: a number other than 0, or any list. *)
Definition truthy_stored (v : option Stored) : bool :=
  match v with
  | Some (Num n) => negb (n =? 0)
  | Some (Items _) => true
  | None => false
  end.

(** The language lists of lines 235 and 300. *)
Definition indianLangs : list string := ["hi"; "ta"; "te"; "ml"; "kn"; "mr"; "bn"; "pa"].

Definition regionalLangs : list string := ["ta"; "te"; "ml"; "kn"; "mr"].

(** The search branch for movies (lines 226-248). *)
Definition search_movies (req : Request) (page : JsNum) : M (list Meta.t) :=
  let! movies := query (SearchMovie (searchQuery req) page) in
  let! movies :=
    (if String.eqb (id req) "indian_latest" then
       let! hindiChecks :=
         promise_all now
           (fun m => if includes indianLangs (Raw.original_language m)
                     then hasHindiAudio (Raw.id m)
                     else (fun _ => (false, [])))
           movies in
       ret (keep_checked movies hindiChecks)
     else if String.eqb (id req) "hollywood_latest" then
       ret (filter (fun m => is_str (Raw.original_language m) "en") movies)
     else ret movies) in
  format_all formatMovie movies.

(** The search branch for series (lines 249-262). *)
Definition search_series (req : Request) (page : JsNum) : M (list Meta.t) :=
  let! series := query (SearchTv (searchQuery req) page) in
  let series :=
    if String.eqb (id req) "hollywood_series_latest"
    then filter (fun s => is_str (Raw.original_language s) "en") series
    else series in
  format_all formatSeries series.

(** The loop over the regional languages (lines 302-323). *)
Fixpoint regional_loop (page : JsNum) (langs : list string) (allMovies : list Raw.t)
    : M (list Raw.t) :=
  match langs with
  | [] => ret allMovies
  | lang :: rest =>
      if (25 <=? List.length allMovies)%nat then ret allMovies
      else
        let! regionalMovies :=
          query (DiscoverMovie (todayIST host) lang "IN" "0" page) in
        let! hindiChecks :=
          promise_all now (fun m => hasHindiAudio (Raw.id m)) regionalMovies in
        let filteredRegional := keep_checked regionalMovies hindiChecks in
        regional_loop page rest (allMovies ++ filteredRegional)
  end.

(** The composite catalogue [indian_latest] (lines 283-336). *)
Definition indian_latest (page : JsNum) : M (list Meta.t) :=
  let! allMovies := query (DiscoverMovie (todayIST host) "hi" "IN" "0" page) in
  let! allMovies := regional_loop page regionalLangs allMovies in
  let uniqueMovies := dedup allMovies in
  let uniqueMovies := sort release_cmp uniqueMovies in
  format_all formatMovie (slice0 20 uniqueMovies).

(** The body of the [try] up to the assignment of [metas] (lines 222-355). *)
Definition fetch (req : Request) (page : JsNum) : M (list Meta.t) :=
  if negb (String.eqb (searchQuery req) "") then
    if String.eqb (type req) "movie" then search_movies req page
    else if String.eqb (type req) "series" then search_series req page
    else ret []
  else
    if String.eqb (type req) "movie" && String.eqb (id req) "hollywood_latest" then
      let! movies := query (DiscoverMovie (todayIST host) "en" "US" "5" page) in
      format_all formatMovie movies
    else if String.eqb (type req) "movie" && String.eqb (id req) "indian_latest" then
      indian_latest page
    else if String.eqb (type req) "series" && String.eqb (id req) "hollywood_series_latest" then
      let! series := query (DiscoverTv (todayIST host) "en" "10" page) in
      format_all formatSeries series
    else ret [].

(** Lines 357-364: keep a non-empty result, and its length as the page
    size when the request is for the first page. *)
Definition remember (req : Request) (cacheKey : string) (metas : list Meta.t) : M unit :=
  if (0 <? List.length metas)%nat then
    do! set_entry (WStore cacheKey (Items metas) None) in
    if skip req =? 0
    then set_entry (WStore (pageSizeKey req) (Num (Z.of_nat (List.length metas))) (Some 86400))
    else ret tt
  else ret tt.

(** The body of the [try] (lines 222-366). *)
Definition try_body (req : Request) (page : JsNum) (cacheKey : string) : M (list Meta.t) :=
  let! metas := fetch req page in
  do! remember req cacheKey metas in
  ret metas.

(** [builder.defineCatalogHandler(async ({ type, id, extra }) => ...)]. *)
Definition catalogHandler (req : Request) (c : Cache) : Response * Cache * list Event :=
  let cached := live now (store c !! cacheKey req c) in
  if truthy_stored cached then (respond (default (Items []) cached), c, [])
  else
    match try_body req (page req c) (cacheKey req c) c with
    | (Some metas, c', es) => (respond (Items metas), c', es)
    | (None, c', es) => (respond (Items []), c', es)
    end.
End Addon.

(** ** The meta handler (lines 373-427) *)

(** [s.startsWith(p)]. *)
Definition startsWith (s p : string) : bool := String.prefix p s.

(** The string without its first [n] characters. *)
Fixpoint drop_chars (n : nat) (s : string) : string :=
  match n, s with
  | O, _ => s
  | S n, String _ s => drop_chars n s
  | S _, EmptyString => EmptyString
  end.

(** [s.replace(pat, '')] for a string [pat]: the first occurrence of [pat]
    in [s] is taken out, and [s] stays as it is when there is none. *)
Fixpoint remove_first (pat s : string) : string :=
  if String.prefix pat s then drop_chars (String.length pat) s
  else
    match s with
    | EmptyString => EmptyString
    | String a s => String a (remove_first pat s)
    end.

(** An entry of the lists of [GET /find/{imdb id}?external_source=imdb_id],
    and the data of the call. *)
Record Found := { found_id : option Z }.

Record FindData := {
  movie_results : option (list Found);
  tv_results : option (list Found)
}.

(** The credits, genres and fields of an item detail, as far as the
    handler reads them:
    [GET /{endpoint}/{id}?append_to_response=credits,videos,external_ids]. *)
Record CastMember := { cast_name : option string }.

Record CrewMember := { crew_job : option string; crew_name : option string }.

Record Credits := {
  credits_cast : option (list CastMember);
  credits_crew : option (list CrewMember)
}.

Record Genre := { genre_name : option string }.

Module ItemData.
Record t := mk {
  title : option string;
  name : option string;
  poster_path : option string;
  backdrop_path : option string;
  overview : option string;
  release_date : option string;
  first_air_date : option string;
  original_language : option string;
  vote_average : option Q;
  credits : option Credits;
  genres : option (list Genre);
  runtime : option Z
}.
End ItemData.

(** The meta object that the handler builds (lines 404-419). *)
Module FullMeta.
Record t := mk {
  id : string;
  type : string;
  name : string;
  poster : option string;
  posterShape : string;
  background : option string;
  description : string;
  releaseInfo : option string;
  imdbRating : string;
  genres : list (option string);
  cast : list (option string);
  director : string;
  language : string;
  runtime : option string
}.
End FullMeta.

(** The two calls of the meta handler, and the upstream that answers
    them; [None] is a failed call.  The endpoint of the detail call is
    [tv] for [Series] and [movie] for [Movie]. *)
Inductive MetaCall :=
| Find (cleanId : string)
| ItemDetail (endpoint : Kind) (tmdbId : option Z).

Record MetaUpstream := {
  find_imdb : string -> option FindData;
  item_detail : Kind -> option Z -> option ItemData.t
}.

(** What the cache can hold under the key of a meta request.  The key
    [meta_<type>_<id>] starts with [meta_], so it is no key of the
    resolver, of the classifier or of a page size; a result key
    [<base>_p<page>] of the catalogue handler is made from free text and
    can be such a key, so the entry is a meta object or what the catalogue
    handler stores. *)
Inductive Cached :=
| CMeta (m : FullMeta.t)
| CStored (s : Stored).

(** The cache, as the meta handler sees it. *)
Abbreviation MetaCache := (gmap string (Entry Cached)).

(** [if (cached)] in the meta handler. *)
Definition truthy_cached (v : option Cached) : bool :=
  match v with
  | Some (CMeta _) => true
  | Some (CStored s) => truthy_stored (Some s)
  | None => false
  end.

(** The effects of the meta handler: an upstream call, or the
    [cache.set(cacheKey, meta, ttl)] of line 421. *)
Inductive MetaEvent :=
| MQuery (c : MetaCall)
| MSet (key : string) (meta : FullMeta.t) (ttl : Z).

(** [`meta_${type}_${cleanId}`]. *)
Definition metaKey (type cleanId : string) : string :=
  "meta_" +:+ type +:+ "_" +:+ cleanId.

(** [item.credits?.cast?.slice(0, 5).map(c => c.name) || []]. *)
Definition cast_of (credits : option Credits) : list (option string) :=
  match credits with
  | Some cr =>
      match credits_cast cr with
      | Some cast => cast_name <$> slice0 5 cast
      | None => []
      end
  | None => []
  end.

(** [item.credits?.crew?.find(c => c.job === 'Director')?.name || '']. *)
Definition director_of (credits : option Credits) : string :=
  match credits with
  | Some cr =>
      match credits_crew cr with
      | Some crew =>
          match find (fun c => is_str (crew_job c) "Director") crew with
          | Some c => or_str (crew_name c) ""
          | None => ""
          end
      | None => ""
      end
  | None => ""
  end.

(** [item.genres?.map(g => g.name) || []]. *)
Definition genres_of (genres : option (list Genre)) : list (option string) :=
  match genres with
  | Some gs => genre_name <$> gs
  | None => []
  end.

(** [((item.release_date || item.first_air_date || '').substring(0, 4)) || undefined]. *)
Definition year_of (item : ItemData.t) : option string :=
  let year :=
    String.substring 0 4
      (or_str (ItemData.release_date item) (or_str (ItemData.first_air_date item) "")) in
  if String.eqb year "" then None else Some year.

(** [(type === 'movie' && item.runtime) ? `${item.runtime} min` : undefined]. *)
Definition runtime_of (type : string) (item : ItemData.t) : option string :=
  match ItemData.runtime item with
  | Some minutes =>
      if String.eqb type "movie" && negb (minutes =? 0)
      then Some (pretty minutes +:+ " min")
      else None
  | None => None
  end.

(** The meta object of lines 398-419. *)
Definition build_meta (host : Host) (type cleanId : string) (item : ItemData.t) : FullMeta.t :=
  {| FullMeta.id := "tt" +:+ cleanId;
     FullMeta.type := type;
     FullMeta.name := or_str (ItemData.title item) (or_str (ItemData.name item) "Unknown");
     FullMeta.poster := image w500 (ItemData.poster_path item);
     FullMeta.posterShape := "poster";
     FullMeta.background := image original (ItemData.backdrop_path item);
     FullMeta.description := or_str (ItemData.overview item) "No description";
     FullMeta.releaseInfo := year_of item;
     FullMeta.imdbRating := rating_of host (ItemData.vote_average item);
     FullMeta.genres := genres_of (ItemData.genres item);
     FullMeta.cast := cast_of (ItemData.credits item);
     FullMeta.director := director_of (ItemData.credits item);
     FullMeta.language := getLanguageLabel (or_str (ItemData.original_language item) "");
     FullMeta.runtime := runtime_of type item |}.

(** [builder.defineMetaHandler(async ({ type, id }) => ...)]: the [meta] of
    the response ([None] for [null]), the cache afterwards and the
    effects. *)
Definition metaHandler (host : Host) (mup : MetaUpstream) (now : Z) (type id : string)
    (c : MetaCache) : option Cached * MetaCache * list MetaEvent :=
  if negb (startsWith id "tt") then (None, c, [])
  else
    let cleanId := remove_first "tt" id in
    let cacheKey := metaKey type cleanId in
    let cached := live now (c !! cacheKey) in
    if truthy_cached cached then (cached, c, [])
    else
      match find_imdb mup cleanId with
      | Some data =>
          let results :=
            if String.eqb type "movie" then movie_results data else tv_results data in
          match results with
          | Some (first :: _) =>
              let tmdbId := found_id first in
              let endpoint := if String.eqb type "series" then Series else Movie in
              match item_detail mup endpoint tmdbId with
              | Some item =>
                  let meta := build_meta host type cleanId item in
                  (Some (CMeta meta),
                   <[cacheKey := mk_entry now (CMeta meta) (Some 86400)]> c,
                   [MQuery (Find cleanId); MQuery (ItemDetail endpoint tmdbId);
                    MSet cacheKey meta 86400])
              | None =>
                  (None, c, [MQuery (Find cleanId); MQuery (ItemDetail endpoint tmdbId)])
              end
          | _ => (None, c, [MQuery (Find cleanId)])
          end
      | None => (None, c, [MQuery (Find cleanId)])
      end.

(** * Vocabulary of the properties *)

(** ** Classifier signals *)

(** The three signals of a detail record, as propositions. *)
Definition original_is_hindi (d : Detail) : Prop :=
  detail_original_language d = Some "hi".

Definition has_hindi_translation (d : Detail) : Prop :=
  exists t, t ∈ default [] (detail_translations d) /\ iso_639_1 t = Some "hi".

Definition has_india_release (d : Detail) : Prop :=
  exists r, r ∈ default [] (detail_release_dates d) /\ iso_3166_1 r = Some "IN".

(** ** Deduplication and order *)

(** The loop with its accumulator taken out: the items of [l] whose
    identifier is neither in [seen] nor carried by an earlier item. *)
Fixpoint fresh (seen : gset (option Z)) (l : list Raw.t) : list Raw.t :=
  match l with
  | [] => []
  | movie :: rest =>
      if decide (Raw.id movie ∈ seen) then fresh seen rest
      else movie :: fresh ({[Raw.id movie]} ∪ seen) rest
  end.

(** Position [j] of [l] holds the first item with its identifier. *)
Definition first_occurrence (l : list Raw.t) (j : nat) : Prop :=
  exists m, l !! j = Some m
    /\ forall j' m', (j' < j)%nat -> l !! j' = Some m' -> Raw.id m' <> Raw.id m.

(** [a] may stand before [b] in a list sorted with the comparator [cmp]. *)
Definition before {A} (cmp : A -> A -> comparison) (a b : A) : Prop := cmp a b <> Gt.

(** The key of the sort: [m.release_date || '']. *)
Definition release_key (m : Raw.t) : string := or_str (Raw.release_date m) "".

(** ** Effects of a run *)

(** An effect of the item lookups: an upstream call that is no list query,
    or an entry of the resolver or of the classifier. *)
Definition lookup_event (e : Event) : Prop :=
  match e with
  | Query q => is_list_query q = false
  | SetEntry (WStore _ _ _) => False
  | SetEntry _ => True
  end.

(** An effect of fetching a result: anything but an entry of [store]. *)
Definition fetch_event (e : Event) : Prop :=
  match e with
  | SetEntry (WStore _ _ _) => False
  | _ => True
  end.

(** The list queries among the effects all succeeded. *)
Definition queries_ok (up : Upstream) (es : list Event) : Prop :=
  forall q, Query q ∈ es -> is_list_query q = true -> fails up q = false.

(** What holds of every run of a computation that fetches a result: the
    cache afterwards is the cache before with the entries set on the way,
    none of them in [store], and a run that does not throw has met no
    failing list query. *)
Definition fetches (up : Upstream) (now : Z) {A} (m : M A) : Prop :=
  forall c r c' es, m c = (r, c', es) ->
    c' = apply_events now es c
    /\ Forall fetch_event es
    /\ (is_Some r -> queries_ok up es).

(** The entries that lines 357-364 set for the result [metas]. *)
Definition remember_events (req : Request) (cacheKey : string) (metas : list Meta.t)
    : list Event :=
  if (0 <? List.length metas)%nat then
    SetEntry (WStore cacheKey (Items metas) None)
    :: (if skip req =? 0
        then [SetEntry (WStore (pageSizeKey req) (Num (Z.of_nat (List.length metas))) (Some 86400))]
        else [])
  else [].

(** The languages of the discover queries among the effects, in order. *)
Definition queried_langs (es : list Event) : list string :=
  omap (fun e => match e with
                 | Query (DiscoverMovie _ lang _ _ _) => Some lang
                 | _ => None
                 end) es.

(** One turn of the loop over the regional languages, below the floor. *)
Definition turn (host : Host) (up : Upstream) (now : Z) (page : JsNum) (lang : string)
    (allMovies : list Raw.t) : M (list Raw.t) :=
  let! regionalMovies := query up (DiscoverMovie (todayIST host) lang "IN" "0" page) in
  let! hindiChecks :=
    promise_all now (fun m => hasHindiAudio up now (Raw.id m)) regionalMovies in
  ret (allMovies ++ keep_checked regionalMovies hindiChecks).

(** ** Formatting and the result cache *)

(** The formatter of a kind of item. *)
Definition format_of (host : Host) (up : Upstream) (now : Z) (kind : Kind)
    : Raw.t -> Lookup (option Meta.t) :=
  match kind with
  | Movie => formatMovie host up now
  | Series => formatSeries host up now
  end.

(** An item that has no presentation: no poster reference, or an
    identifier that resolves to nothing. *)
Definition unrepresentable (up : Upstream) (now : Z) (kind : Kind) (item : Raw.t) (c : Cache)
    : Prop :=
  truthy_str (Raw.poster_path item) = false
  \/ exists tmdbId, Raw.id item = Some tmdbId
       /\ truthy_str (getIMDBId up now tmdbId kind c).1 = false.

(** A formatted item with a canonical identifier and a poster. *)
Definition presentable (m : Meta.t) : Prop :=
  Meta.id m <> ""
  /\ exists path, path <> "" /\ Meta.poster m = w500 +:+ path.

(** The cache does not serve the request. *)
Definition miss (now : Z) (req : Request) (c : Cache) : Prop :=
  truthy_stored (live now (store c !! cacheKey now req c)) = false.

(** Every list in [store] is non-empty: this holds of the empty cache and
    the handler keeps it. *)
Definition lists_nonempty (c : Cache) : Prop :=
  forall key e, store c !! key = Some e -> value e <> Items [].

(** The catalogue ids of the manifest (lines 19-47). *)
Definition manifest_id (id : string) : Prop :=
  id = "hollywood_latest" \/ id = "indian_latest" \/ id = "hollywood_series_latest".

(** Whether a key starts with [ps_], as the page-size keys do. *)
Definition starts_ps (key : string) : bool :=
  match key with
  | String "p" (String "s" (String "_" _)) => true
  | _ => false
  end.

(** The keys of [store] tell the values apart: a number under a key that
    starts with [ps_], a non-empty list under any other key. *)
Definition keyed (c : Cache) : Prop :=
  forall key e, store c !! key = Some e ->
    if starts_ps key then exists n, value e = Num n
    else exists l, value e = Items l /\ l <> [].

(** The caches that a process reaches by serving requests for the
    catalogues of the manifest, at any times and with any upstream. *)
Inductive reachable : Cache -> Prop :=
| reachable_empty : reachable empty_cache
| reachable_step host up now req c :
    reachable c -> manifest_id (id req) ->
    reachable (catalogHandler host up now req c).1.2.

(** ** Concrete hosts, upstreams and requests *)

(** A host on 1 June 2024. *)
Definition host0 : Host :=
  {| todayIST := "2024-06-01";
     toFixed1 := fun _ => "7.0";
     local_date := fun d => d |}.

(** A well-formed movie record with the identifier [i]. *)
Definition movie (i : Z) (lang date : string) : Raw.t :=
  Raw.mk (Some i) (Some "/poster.jpg") None (Some lang) (Some date) None
         (Some "Title") None None None None None.

(** [n] movies with the identifiers [from], [from + 1], ... *)
Definition movies (from : Z) (n : nat) (lang : string) : list Raw.t :=
  (fun k => movie (from + Z.of_nat k) lang "2024-01-01") <$> seq 0 n.

(** A record with the release date [d]. *)
Definition raw_dated (d : option string) : Raw.t :=
  Raw.mk (Some 1) None None None d None None None None None None None.

(** A request for the composite catalogue at the offset [skip]. *)
Definition request_indian (skip : Z) : Request :=
  {| type := "movie"; id := "indian_latest"; extra_search := None; skip := skip |}.

(** A first-page movie search in the catalogue [id]. *)
Definition request_search (id query : string) : Request :=
  {| type := "movie"; id := id; extra_search := Some query; skip := 0 |}.

(** A cache that holds the page size 17 for the composite catalogue. *)
Definition cache_learned_17 : Cache :=
  cache_set 0 (WStore "ps_indian_latest" (Num 17) (Some 86400)) empty_cache.

(** The detail of a Tamil film with a Hindi translation. *)
Definition detail_dubbed : Detail :=
  {| detail_original_language := Some "ta";
     detail_translations := Some [{| iso_639_1 := Some "en" |}; {| iso_639_1 := Some "hi" |}];
     detail_release_dates := None |}.

(** An upstream that answers every detail call with [detail_dubbed]. *)
Definition upstream_dubbed : Upstream :=
  {| list_query := fun _ => None;
     external_ids := fun _ _ => None;
     movie_detail := fun _ => Some detail_dubbed |}.

(** An upstream whose record of every item carries no identifier. *)
Definition upstream_without_ids : Upstream :=
  {| list_query := fun _ => None;
     external_ids := fun _ _ => Some None;
     movie_detail := fun _ => None |}.

(** An upstream with 10 Hindi movies on a page and 8 movies for every
    regional language, all of them with a Hindi translation and an
    identifier. *)
Definition upstream_regional : Upstream :=
  {| list_query := fun q =>
       match q with
       | DiscoverMovie _ "hi" _ _ _ => Some (Some (movies 100 10 "hi"))
       | DiscoverMovie _ "ta" _ _ _ => Some (Some (movies 200 8 "ta"))
       | DiscoverMovie _ "te" _ _ _ => Some (Some (movies 300 8 "te"))
       | DiscoverMovie _ "ml" _ _ _ => Some (Some (movies 400 8 "ml"))
       | DiscoverMovie _ "kn" _ _ _ => Some (Some (movies 500 8 "kn"))
       | DiscoverMovie _ "mr" _ _ _ => Some (Some (movies 600 8 "mr"))
       | _ => Some None
       end;
     external_ids := fun _ i => Some (Some ("tt" +:+ pretty i));
     movie_detail := fun _ => Some detail_dubbed |}.

(** An upstream whose Hindi query succeeds and whose Tamil query fails. *)
Definition upstream_tamil_down : Upstream :=
  {| list_query := fun q =>
       match q with
       | DiscoverMovie _ "hi" _ _ _ => Some (Some (movies 100 10 "hi"))
       | _ => None
       end;
     external_ids := fun _ i => Some (Some ("tt" +:+ pretty i));
     movie_detail := fun _ => Some detail_dubbed |}.

(** An upstream with 17 presentable Hindi movies on the first page. *)
Definition upstream_17 : Upstream :=
  {| list_query := fun q =>
       match q with
       | DiscoverMovie _ "hi" _ _ _ => Some (Some (movies 100 17 "hi"))
       | _ => Some (Some [])
       end;
     external_ids := fun _ i => Some (Some ("tt" +:+ pretty i));
     movie_detail := fun _ => None |}.

(** An upstream whose movie search finds one presentable movie. *)
Definition upstream_search : Upstream :=
  {| list_query := fun q =>
       match q with
       | SearchMovie _ _ => Some (Some [movie 278 "en" "1994-09-23"])
       | _ => Some (Some [])
       end;
     external_ids := fun _ _ => Some (Some "tt0111161");
     movie_detail := fun _ => None |}.

(** ** Formatted items and requests *)

(** The [type] that the formatter of a kind gives its items, and the date
    field that it reads. *)
Definition kind_name (kind : Kind) : string :=
  match kind with
  | Movie => "movie"
  | Series => "series"
  end.

Definition date_of (kind : Kind) (item : Raw.t) : option string :=
  match kind with
  | Movie => Raw.release_date item
  | Series => Raw.first_air_date item
  end.

(** The requests to which lines 225-355 assign a result: a search for
    movies or for series, or one of the three catalogues with its type. *)
Definition served (req : Request) : bool :=
  if negb (String.eqb (searchQuery req) "") then
    String.eqb (type req) "movie" || String.eqb (type req) "series"
  else
    (String.eqb (type req) "movie" && String.eqb (id req) "hollywood_latest")
    || (String.eqb (type req) "movie" && String.eqb (id req) "indian_latest")
    || (String.eqb (type req) "series" && String.eqb (id req) "hollywood_series_latest").

(** The composite catalogue without a search text (line 283). *)
Definition composite (req : Request) : bool :=
  String.eqb (searchQuery req) "" && String.eqb (type req) "movie"
  && String.eqb (id req) "indian_latest".

(** The list queries among the effects, in order, and the page that a list
    query asks for. *)
Definition list_calls (es : list Event) : list Call :=
  omap (fun e => match e with
                 | Query q => if is_list_query q then Some q else None
                 | SetEntry _ => None
                 end) es.

Definition call_page (q : Call) : option JsNum :=
  match q with
  | SearchMovie _ p | SearchTv _ p | DiscoverMovie _ _ _ _ p | DiscoverTv _ _ _ p => Some p
  | ExternalIds _ _ | MovieDetail _ => None
  end.

(** Every run of the computation sends at most [n] list queries, each of
    them for the page [page]. *)
Definition sends (page : JsNum) (n : nat) {A} (m : M A) : Prop :=
  forall c r c' es, m c = (r, c', es) ->
    (List.length (list_calls es) <= n)%nat
    /\ Forall (fun q => call_page q = Some page) (list_calls es).

(** A request for the series catalogue under the type [movie]. *)
Definition request_mismatched : Request :=
  {| type := "movie"; id := "hollywood_series_latest"; extra_search := None; skip := 0 |}.

(** An upstream whose movie search finds an English, a Tamil and a French
    movie, the Tamil one with a Hindi translation. *)
Definition upstream_mixed : Upstream :=
  {| list_query := fun q =>
       match q with
       | SearchMovie _ _ =>
           Some (Some [movie 1 "en" "2020-01-01"; movie 2 "ta" "2021-01-01";
                       movie 3 "fr" "2022-01-01"])
       | _ => Some (Some [])
       end;
     external_ids := fun _ i => Some (Some ("tt" +:+ pretty i));
     movie_detail := fun _ => Some detail_dubbed |}.

(** The item list of a response (none when [metas] is no list). *)
Definition items (r : Response) : list Meta.t :=
  match metas r with
  | Items l => l
  | Num _ => []
  end.

(** The labels of the languages of [indianLangs]. *)
Definition indian_labels : list string :=
  ["Hindi"; "Tamil"; "Telugu"; "Malayalam"; "Kannada"; "Marathi"; "Bengali"; "Punjabi"].

(** What [store] holds in a process that serves the catalogues of the
    manifest: a positive page size under a key that starts with [ps_], a
    non-empty list of presentable items under any other key. *)
Definition well_kept (c : Cache) : Prop :=
  forall key e, store c !! key = Some e ->
    if starts_ps key then exists n, value e = Num n /\ 0 < n
    else exists l, value e = Items l /\ l <> [] /\ Forall presentable l.

(** ** The meta handler *)

(** The cache does not serve the meta request. *)
Definition meta_miss (now : Z) (type id : string) (c : MetaCache) : Prop :=
  truthy_cached (live now (c !! metaKey type (remove_first "tt" id))) = false.

(** The detail of a film with a cast of six, a director and a runtime. *)
Definition item_film : ItemData.t :=
  {| ItemData.title := Some "The Shawshank Redemption";
     ItemData.name := None;
     ItemData.poster_path := Some "/poster.jpg";
     ItemData.backdrop_path := None;
     ItemData.overview := None;
     ItemData.release_date := Some "1994-09-23";
     ItemData.first_air_date := None;
     ItemData.original_language := Some "en";
     ItemData.vote_average := None;
     ItemData.credits :=
       Some {| credits_cast :=
                 Some ((fun n => {| cast_name := Some n |}) <$> ["a"; "b"; "c"; "d"; "e"; "f"]);
               credits_crew :=
                 Some [{| crew_job := Some "Writer"; crew_name := Some "w" |};
                       {| crew_job := Some "Director"; crew_name := Some "d" |}] |};
     ItemData.genres := Some [{| genre_name := Some "Drama" |}];
     ItemData.runtime := Some 142 |}.

(** An upstream that finds one movie for every identifier, and one that
    is down. *)
Definition meta_upstream_film : MetaUpstream :=
  {| find_imdb := fun _ =>
       Some {| movie_results := Some [{| found_id := Some 278 |}]; tv_results := Some [] |};
     item_detail := fun _ _ => Some item_film |}.

Definition meta_upstream_down : MetaUpstream :=
  {| find_imdb := fun _ => None; item_detail := fun _ _ => None |}.

(** ** Runs that end with a result *)

(** Every run of the computation ends with a result: it does not throw. *)
Definition completes {A} (m : M A) : Prop :=
  forall c, exists a c' es, m c = (Some a, c', es).

(** An upstream that answers every list query with the same two movies
    and every call for an external identifier, and fails every detail
    call. *)
Definition upstream_details_down : Upstream :=
  {| list_query := fun _ => Some (Some (movies 100 2 "hi"));
     external_ids := fun _ i => Some (Some ("tt" +:+ pretty i));
     movie_detail := fun _ => None |}.

(** ** Classification by the upstream *)

(** The upstream detail of an item shows one of the three signals. *)
Definition qualifies (up : Upstream) (movieId : option Z) : Prop :=
  exists data, movie_detail up movieId = Some data
    /\ (original_is_hindi data \/ has_hindi_translation data \/ has_india_release data).

(** An effect of the loop over the regional languages: an upstream call,
    or an entry of the classifier whose answer [true] the upstream detail
    of the item supports. *)
Definition classifier_event (up : Upstream) (e : Event) : Prop :=
  match e with
  | Query _ => True
  | SetEntry (WHindi movieId v _) => v = true -> qualifies up movieId
  | SetEntry _ => False
  end.

(** Every answer [true] that the classifier entries of [c'] serve at [now]
    is served by [c] already or supported by the upstream detail. *)
Definition grounded (up : Upstream) (now : Z) (c c' : Cache) : Prop :=
  forall movieId, live now (hindi c' !! movieId) = Some true ->
    live now (hindi c !! movieId) = Some true \/ qualifies up movieId.

(** * Properties *)

(** ** Offset-to-page translation *)

Lemma upstreamPage_Num (offset p : Z) :
  p <> 0 -> upstreamPage offset (Num p) = Int (offset / p + 1).
Proof.
  intros Hp. unfold upstreamPage.
  destruct (Z.eqb_spec p 0) as [->|_]; [contradiction | reflexivity].
Qed.

Lemma pageSize_learned now req c p :
  p <> 0 -> live now (store c !! pageSizeKey req) = Some (Num p) ->
  pageSize now req c = Num p.
Proof.
  intros Hp Hget. unfold pageSize. rewrite Hget.
  destruct (Z.eqb_spec p 0) as [->|_]; [contradiction | reflexivity].
Qed.

Lemma pageSize_default now req c :
  live now (store c !! pageSizeKey req) = None -> pageSize now req c = Num 20.
Proof. intros Hget. unfold pageSize. by rewrite Hget. Qed.

(** C2.  For a client offset [skip >= 0] and a positive page size [p],
    which is the learned entry of the request's signature when the cache
    serves one and the default 20 otherwise, the page the handler computes
    is [floor(skip / p) + 1]: it is [q + 1] for the one [q] with
    [p * q <= skip < p * (q + 1)].  With offset 0 the page is 1. *)
Theorem upstream_page_formula (now : Z) (req : Request) (c : Cache) (p : Z) :
  0 <= skip req ->
  0 < p ->
  live now (store c !! pageSizeKey req) = Some (Num p)
  \/ (live now (store c !! pageSizeKey req) = None /\ p = 20) ->
  page now req c = Int (skip req / p + 1)
  /\ p * (skip req / p) <= skip req < p * (skip req / p + 1)
  /\ 0 <= skip req / p
  /\ (skip req = 0 -> page now req c = Int 1)
  /\ upstreamPage 0 (Num p) = Int 1.
Proof.
  intros Hskip Hp Hsrc.
  assert (Hpage : page now req c = Int (skip req / p + 1)).
  { unfold page. destruct Hsrc as [Hget | [Hget ->]].
    - rewrite (pageSize_learned _ _ _ p) by (lia || done).
      apply upstreamPage_Num; lia.
    - rewrite pageSize_default by done. reflexivity. }
  split; [exact Hpage|].
  split; [|split; [|split]].
  - pose proof (Z.mul_div_le (skip req) p Hp).
    pose proof (Z.mul_succ_div_gt (skip req) p Hp). lia.
  - apply Z.div_pos; lia.
  - intros H0. rewrite Hpage, H0. reflexivity.
  - rewrite upstreamPage_Num by lia. reflexivity.
Qed.

Lemma upstream_page_formula_witness :
  page 5000 (request_indian 40) cache_learned_17 = Int (40 / 17 + 1)
  /\ 17 * (40 / 17) <= 40 < 17 * (40 / 17 + 1)
  /\ 0 <= 40 / 17
  /\ (40 = 0 -> page 5000 (request_indian 40) cache_learned_17 = Int 1)
  /\ upstreamPage 0 (Num 17) = Int 1.
Proof.
  apply (upstream_page_formula 5000 (request_indian 40) cache_learned_17 17).
  - simpl. lia.
  - lia.
  - left. vm_compute. reflexivity.
Defined.

(** ** Enrichment resolver *)

(** A resolved identifier is kept for a day. *)
Lemma getIMDBId_resolved up now tmdbId type c imdb_id :
  live now (imdb c !! (type, tmdbId)) = None ->
  external_ids up type tmdbId = Some (Some imdb_id) ->
  imdb_id <> "" ->
  getIMDBId up now tmdbId type c
  = (Some imdb_id, [Query (ExternalIds type tmdbId);
                    SetEntry (WImdb type tmdbId (Some imdb_id) (Some 86400))]).
Proof.
  intros Hmiss Hup Hne. unfold getIMDBId. rewrite Hmiss, Hup. simpl.
  destruct (String.eqb_spec imdb_id "") as [->|_]; [contradiction | reflexivity].
Qed.

(** A failed call leaves the "unresolved" mark for an hour. *)
Lemma getIMDBId_failed up now tmdbId type c :
  live now (imdb c !! (type, tmdbId)) = None ->
  external_ids up type tmdbId = None ->
  getIMDBId up now tmdbId type c
  = (None, [Query (ExternalIds type tmdbId);
            SetEntry (WImdb type tmdbId None (Some 3600))]).
Proof. intros Hmiss Hup. unfold getIMDBId. by rewrite Hmiss, Hup. Qed.

(** An answer without an identifier is a success of the call: the
    "unresolved" mark is stored by line 86, for a day. *)
Lemma getIMDBId_absent up now tmdbId type c imdb_id :
  live now (imdb c !! (type, tmdbId)) = None ->
  external_ids up type tmdbId = Some imdb_id ->
  truthy_str imdb_id = false ->
  getIMDBId up now tmdbId type c
  = (None, [Query (ExternalIds type tmdbId);
            SetEntry (WImdb type tmdbId None (Some 86400))]).
Proof. intros Hmiss Hup Hno. unfold getIMDBId. by rewrite Hmiss, Hup, Hno. Qed.

(** C8, at the input on which the code departs from it.  The call for item
    42 succeeds and the record has no identifier: the "unresolved" mark is
    stored with a time to live of 86400 seconds, and a lookup made one
    hour and one second later is served from the cache, with no call. *)
Theorem getIMDBId_absent_id_kept_a_day :
  let first := getIMDBId upstream_without_ids 0 42 Movie empty_cache in
  first = (None, [Query (ExternalIds Movie 42); SetEntry (WImdb Movie 42 None (Some 86400))])
  /\ getIMDBId upstream_without_ids 3601000 42 Movie
       (apply_events 0 (snd first) empty_cache) = (None, []).
Proof. split; vm_compute; reflexivity. Qed.

(** ** Audio-language classifier *)

Lemma is_str_spec x lit : is_str x lit = true <-> x = Some lit.
Proof.
  destruct x as [x|]; simpl; [|done].
  destruct (String.eqb_spec x lit); split; congruence.
Qed.

Lemma existsb_elem_of {A} (f : A -> bool) (l : list A) :
  existsb f l = true <-> exists x, x ∈ l /\ f x = true.
Proof.
  rewrite existsb_exists. by setoid_rewrite list_elem_of_In.
Qed.

(** C9.  On a cache miss with a successful detail fetch, the classifier
    answers [true] exactly when the original language is [hi], or a
    translation into [hi] is listed, or a release entry for [IN] exists; it
    sends the one detail call and stores the answer, for 86400 seconds when
    it is [true] and for 3600 seconds when it is [false]. *)
Theorem hasHindiAudio_signals (up : Upstream) (now : Z) (movieId : option Z)
    (c : Cache) (data : Detail) :
  live now (hindi c !! movieId) = None ->
  movie_detail up movieId = Some data ->
  exists answer : bool,
    hasHindiAudio up now movieId c
    = (answer, [Query (MovieDetail movieId);
                SetEntry (WHindi movieId answer (Some (if answer then 86400 else 3600)))])
    /\ (answer = true <->
        original_is_hindi data \/ has_hindi_translation data \/ has_india_release data).
Proof.
  intros Hmiss Hup. unfold hasHindiAudio. rewrite Hmiss, Hup.
  unfold original_is_hindi, has_hindi_translation, has_india_release.
  destruct (is_str (detail_original_language data) "hi") eqn:Hlang.
  { exists true. split; [done|]. apply is_str_spec in Hlang. tauto. }
  destruct (existsb _ (default [] (detail_translations data))) eqn:Htrans.
  { exists true. split; [done|]. apply existsb_elem_of in Htrans.
    destruct Htrans as (t & Hin & Ht). apply is_str_spec in Ht. split; [|done].
    intros _. right; left. eauto. }
  destruct (find _ (default [] (detail_release_dates data))) as [r|] eqn:Hrel.
  { exists true. split; [done|]. apply find_some in Hrel as [Hin Hr].
    apply is_str_spec in Hr. apply list_elem_of_In in Hin. split; [|done].
    intros _. right; right. eauto. }
  exists false. split; [done|]. split; [done|].
  intros [H | [(t & Hin & Ht) | (r & Hin & Hr)]].
  - apply is_str_spec in H. congruence.
  - assert (existsb (fun t => is_str (iso_639_1 t) "hi")
              (default [] (detail_translations data)) = true) as E; [|congruence].
    apply existsb_elem_of. exists t. split; [done|]. by apply is_str_spec.
  - apply list_elem_of_In in Hin.
    eapply find_none in Hrel; [|exact Hin]. simpl in Hrel.
    apply is_str_spec in Hr. congruence.
Qed.

Lemma hasHindiAudio_signals_witness :
  exists answer : bool,
    hasHindiAudio upstream_dubbed 0 (Some 7) empty_cache
    = (answer, [Query (MovieDetail (Some 7));
                SetEntry (WHindi (Some 7) answer (Some (if answer then 86400 else 3600)))])
    /\ (answer = true <->
        original_is_hindi detail_dubbed \/ has_hindi_translation detail_dubbed
        \/ has_india_release detail_dubbed).
Proof.
  apply (hasHindiAudio_signals upstream_dubbed 0 (Some 7) empty_cache detail_dubbed);
    reflexivity.
Defined.

(** ** Deduplication *)

Lemma dedup_loop_fresh l seen acc : dedup_loop l seen acc = acc ++ fresh seen l.
Proof.
  revert seen acc. induction l as [|m l IH]; intros seen acc; simpl.
  - by rewrite app_nil_r.
  - case_decide; [apply IH|]. rewrite IH, <- app_assoc. reflexivity.
Qed.

Lemma fresh_snoc seen l m :
  fresh seen (l ++ [m])
  = fresh seen l
    ++ (if decide (Raw.id m ∈ seen ∪ list_to_set (Raw.id <$> l)) then [] else [m]).
Proof.
  revert seen. induction l as [|x l IH]; intros seen; cbn [fresh app].
  - repeat case_decide; try reflexivity; exfalso; set_unfold; intuition congruence.
  - rewrite fmap_cons, list_to_set_cons. case_decide as Hx.
    + rewrite IH. clear IH. f_equal.
      repeat case_decide; try reflexivity; exfalso; set_unfold; intuition congruence.
    + rewrite IH. clear IH. cbn [app]. f_equal. f_equal.
      repeat case_decide; try reflexivity; exfalso; set_unfold; intuition congruence.
Qed.

(** Scanning one more item: it is kept exactly when no earlier item has
    its identifier, and it goes to the end. *)
Lemma dedup_snoc l m :
  dedup (l ++ [m])
  = dedup l ++ (if decide (Raw.id m ∈ Raw.id <$> l) then [] else [m]).
Proof.
  unfold dedup. rewrite !dedup_loop_fresh. simpl. rewrite fresh_snoc.
  f_equal. repeat case_decide; try reflexivity; exfalso; set_unfold; intuition congruence.
Qed.

Lemma dedup_ids l i : i ∈ Raw.id <$> dedup l <-> i ∈ Raw.id <$> l.
Proof.
  induction l as [|m l IH] using rev_ind; [done|].
  rewrite dedup_snoc, !fmap_app, !elem_of_app, IH.
  case_decide as Hm; simpl; [|tauto].
  split.
  - intros [H|H]; [by left | by apply elem_of_nil in H].
  - intros [H|H]; [by left|].
    apply list_elem_of_singleton in H. subst. by left.
Qed.

Lemma dedup_NoDup l : NoDup (Raw.id <$> dedup l).
Proof.
  induction l as [|m l IH] using rev_ind; [constructor|].
  rewrite dedup_snoc, fmap_app. case_decide as Hm.
  - rewrite fmap_nil, app_nil_r. exact IH.
  - apply NoDup_app. split; [exact IH|]. split; [|apply NoDup_singleton].
    intros i Hi Hi'. apply list_elem_of_singleton in Hi'. subst.
    apply Hm. by apply dedup_ids.
Qed.

Lemma first_occurrence_lt l j : first_occurrence l j -> (j < List.length l)%nat.
Proof. intros (m & Hm & _). by apply lookup_lt_Some in Hm. Qed.

Lemma first_occurrence_app_l l m j :
  (j < List.length l)%nat ->
  first_occurrence (l ++ [m]) j <-> first_occurrence l j.
Proof.
  intros Hj. unfold first_occurrence. split; intros (x & Hx & Hfirst).
  - rewrite lookup_app_l in Hx by done. exists x. split; [done|].
    intros j' m' Hlt Hm'. apply (Hfirst j' m' Hlt). rewrite lookup_app_l by lia. done.
  - exists x. rewrite lookup_app_l by done. split; [done|].
    intros j' m' Hlt Hm'. apply (Hfirst j' m' Hlt). rewrite lookup_app_l in Hm' by lia. done.
Qed.

Lemma first_occurrence_last l m :
  first_occurrence (l ++ [m]) (List.length l) <-> Raw.id m ∉ Raw.id <$> l.
Proof.
  unfold first_occurrence. rewrite list_lookup_middle by done. split.
  - intros (x & [= <-] & Hfirst) Hin.
    apply list_elem_of_fmap in Hin as (m' & Heq & Hin).
    apply list_elem_of_lookup in Hin as (j' & Hj').
    apply (Hfirst j' m'); [by apply lookup_lt_Some in Hj' | | done].
    rewrite lookup_app_l; [done | by apply lookup_lt_Some in Hj'].
  - intros Hnot. exists m. split; [done|]. intros j' m' Hlt Hm' Heq.
    rewrite lookup_app_l in Hm' by done. apply Hnot.
    apply list_elem_of_fmap. exists m'. split; [done|].
    apply list_elem_of_lookup. eauto.
Qed.

(** C5.  In the deduplicated list every source identifier of the input
    occurs, and occurs once; its items are the items found at the
    positions [js] of the input, where [js] lists, in increasing order,
    exactly the positions of the first occurrence of an identifier. *)
Theorem dedup_first_occurrences (l : list Raw.t) :
  NoDup (Raw.id <$> dedup l)
  /\ (forall i, i ∈ Raw.id <$> dedup l <-> i ∈ Raw.id <$> l)
  /\ exists js : list nat,
       Forall2 (fun j m => l !! j = Some m) js (dedup l)
       /\ StronglySorted lt js
       /\ forall j, j ∈ js <-> first_occurrence l j.
Proof.
  split; [apply dedup_NoDup|]. split; [apply dedup_ids|].
  induction l as [|m l IH] using rev_ind.
  - exists []. split; [constructor|]. split; [constructor|].
    intros j. split; [by intros ?%elem_of_nil|].
    intros H%first_occurrence_lt. simpl in H. lia.
  - destruct IH as (js & Hitems & Hsorted & Hjs).
    assert (Hbound : Forall (fun j => (j < List.length l)%nat) js).
    { apply Forall_forall. intros j Hj. by apply first_occurrence_lt, Hjs. }
    assert (Hitems' : Forall2 (fun j x => (l ++ [m]) !! j = Some x) js (dedup l)).
    { eapply Forall2_impl; [exact Hitems|]. intros j x Hx. simpl.
      rewrite lookup_app_l; [done | by apply lookup_lt_Some in Hx]. }
    rewrite dedup_snoc. case_decide as Hm.
    + exists js. rewrite app_nil_r. split; [done|]. split; [done|].
      intros j. rewrite Hjs. split.
      * intros Hj. apply first_occurrence_app_l; [by apply first_occurrence_lt|done].
      * intros Hj. pose proof (first_occurrence_lt _ _ Hj) as Hlt.
        rewrite length_app in Hlt. simpl in Hlt.
        destruct (decide (j = List.length l)) as [->|Hne].
        { by apply first_occurrence_last in Hj. }
        apply first_occurrence_app_l in Hj; [done | lia].
    + exists (js ++ [List.length l]). split; [|split].
      * apply Forall2_app; [done|]. constructor; [|constructor].
        by rewrite list_lookup_middle.
      * clear -Hsorted Hbound. induction Hsorted as [|j js Hs IH Hj]; simpl.
        { repeat constructor. }
        apply Forall_cons in Hbound as [Hlt Hbound].
        constructor; [by apply IH|]. apply Forall_app. split; [done|].
        by constructor.
      * intros j. rewrite elem_of_app, list_elem_of_singleton, Hjs. split.
        { intros [Hj| ->]; [|by apply first_occurrence_last].
          apply first_occurrence_app_l; [by apply first_occurrence_lt|done]. }
        intros Hj. pose proof (first_occurrence_lt _ _ Hj) as Hlt.
        rewrite length_app in Hlt. simpl in Hlt.
        destruct (decide (j = List.length l)) as [->|Hne]; [by right|].
        left. apply first_occurrence_app_l in Hj; [done | lia].
Qed.

Example dedup_example :
  let m (i : Z) (t : string) :=
    Raw.mk (Some i) None None None None None (Some t) None None None None None in
  dedup [m 7 "a"; m 9 "b"; m 7 "c"; m 9 "d"; m 3 "e"] = [m 7 "a"; m 9 "b"; m 3 "e"].
Proof. vm_compute. reflexivity. Qed.

(** ** Sorting *)

Section SortFacts.
Context {A : Type} (cmp : A -> A -> comparison).

Hypothesis cmp_total : forall a b, cmp a b = Gt -> before cmp b a.
Hypothesis cmp_trans : forall a b c, before cmp a b -> before cmp b c -> before cmp a c.

Lemma insert_sorted_perm x l : insert_sorted cmp x l ≡ₚ x :: l.
Proof.
  induction l as [|y l IH]; simpl; [done|].
  destruct (cmp x y); try done.
  by rewrite IH, Permutation_swap.
Qed.

Lemma sort_perm l : sort cmp l ≡ₚ l.
Proof.
  induction l as [|x l IH]; simpl; [done|].
  by rewrite insert_sorted_perm, IH.
Qed.

Lemma insert_sorted_sorted x l :
  StronglySorted (before cmp) l -> StronglySorted (before cmp) (insert_sorted cmp x l).
Proof.
  induction 1 as [|y l Hl IH Hy]; simpl.
  - repeat constructor.
  - destruct (cmp x y) eqn:Hxy.
    + constructor; [by constructor|]. constructor; [unfold before; congruence|].
      eapply Forall_impl; [exact Hy|]. intros z Hz.
      apply (cmp_trans x y z); [unfold before; congruence | done].
    + constructor; [by constructor|]. constructor; [unfold before; congruence|].
      eapply Forall_impl; [exact Hy|]. intros z Hz.
      apply (cmp_trans x y z); [unfold before; congruence | done].
    + constructor; [done|].
      rewrite insert_sorted_perm. constructor; [by apply cmp_total | done].
Qed.

Lemma sort_sorted l : StronglySorted (before cmp) (sort cmp l).
Proof.
  induction l as [|x l IH]; simpl; [constructor|].
  by apply insert_sorted_sorted.
Qed.

(** Stability: the items of a class that the comparator does not
    separate keep their order. *)
Lemma insert_sorted_filter (P : A -> Prop) `{!forall a, Decision (P a)} x l :
  (forall a b, P a -> P b -> before cmp a b) ->
  filter P (insert_sorted cmp x l) = filter P (x :: l).
Proof.
  intros HP. induction l as [|y l IH]; simpl; [done|].
  destruct (cmp x y) eqn:Hxy; try done.
  rewrite (filter_cons P y), IH, !(filter_cons P x), (filter_cons P y).
  destruct (decide (P y)) as [Hy|Hy]; [|done].
  destruct (decide (P x)) as [Hx|Hx]; [|done].
  by destruct (HP x y Hx Hy).
Qed.

Lemma sort_stable (P : A -> Prop) `{!forall a, Decision (P a)} l :
  (forall a b, P a -> P b -> before cmp a b) ->
  filter P (sort cmp l) = filter P l.
Proof.
  intros HP. induction l as [|x l IH]; simpl; [done|].
  rewrite insert_sorted_filter by done.
  by rewrite !(filter_cons P x), IH.
Qed.
End SortFacts.

(** The order of strings by character codes. *)
Lemma ascii_compare_N a b : Ascii.compare a b = (N_of_ascii a ?= N_of_ascii b)%N.
Proof. reflexivity. Qed.

Lemma string_compare_refl s : String.compare s s = Eq.
Proof.
  induction s as [|a s IH]; simpl; [done|].
  by rewrite ascii_compare_N, N.compare_refl.
Qed.

Lemma string_compare_trans s t u :
  String.compare s t <> Gt -> String.compare t u <> Gt -> String.compare s u <> Gt.
Proof.
  revert t u. induction s as [|a s IH]; intros [|b t] [|c u]; simpl; try done.
  rewrite !ascii_compare_N.
  destruct (N.compare_spec (N_of_ascii a) (N_of_ascii b)) as [Hab|Hab|Hab];
    destruct (N.compare_spec (N_of_ascii b) (N_of_ascii c)) as [Hbc|Hbc|Hbc];
    destruct (N.compare_spec (N_of_ascii a) (N_of_ascii c)) as [Hac|Hac|Hac];
    try done; try lia.
  apply IH.
Qed.

Lemma string_compare_empty s : String.compare s "" <> Gt -> s = "".
Proof. by destruct s. Qed.

Lemma release_cmp_total a b : release_cmp a b = Gt -> before release_cmp b a.
Proof.
  unfold before, release_cmp, localeCompare. intros H.
  rewrite String.compare_antisym, H. done.
Qed.

Lemma release_cmp_trans a b c :
  before release_cmp a b -> before release_cmp b c -> before release_cmp a c.
Proof.
  unfold before, release_cmp, localeCompare. intros Hab Hbc.
  by apply (string_compare_trans _ (or_str (Raw.release_date b) "")).
Qed.

(** C6.  The sort of the composite catalogue yields the same items, with
    the release dates in descending order of strings, an absent date
    counting as the empty string: of two items of the result the earlier
    one has the greater or the same date.  So every item without a date
    comes after every item with one.  Items of the same date keep their
    order.  Three items dated "2024-05-01", "" and "2023-01-01" come out as
    "2024-05-01", "2023-01-01", "". *)
Theorem sort_by_release_date_desc (l : list Raw.t) :
  sort release_cmp l ≡ₚ l
  /\ (forall i j a b, (i < j)%nat ->
        sort release_cmp l !! i = Some a -> sort release_cmp l !! j = Some b ->
        String.leb (release_key b) (release_key a) = true)
  /\ (forall i j a b,
        sort release_cmp l !! i = Some a -> sort release_cmp l !! j = Some b ->
        release_key a = "" -> release_key b <> "" -> (j < i)%nat)
  /\ (forall d, filter (fun m => release_key m = d) (sort release_cmp l)
                = filter (fun m => release_key m = d) l)
  /\ (forall m1 m2 m3,
        release_key m1 = "2024-05-01" ->
        release_key m2 = "" ->
        release_key m3 = "2023-01-01" ->
        sort release_cmp [m1; m2; m3] = [m1; m3; m2]).
Proof.
  assert (Hdesc : forall i j a b, (i < j)%nat ->
            sort release_cmp l !! i = Some a -> sort release_cmp l !! j = Some b ->
            String.leb (release_key b) (release_key a) = true).
  { intros i j a b Hij Ha Hb.
    pose proof (sort_sorted release_cmp release_cmp_total release_cmp_trans l) as Hs.
    apply list_elem_of_split_length in Ha as (l1 & l2 & Hl & Hi).
    rewrite Hl in Hs, Hb. apply StronglySorted_app_1_r in Hs.
    apply StronglySorted_inv in Hs as [_ Hall].
    rewrite lookup_app_r in Hb by lia.
    destruct (j - List.length l1)%nat as [|k] eqn:Hk; [lia|]. simpl in Hb.
    apply list_elem_of_lookup_2 in Hb. rewrite Forall_forall in Hall.
    specialize (Hall b Hb). unfold before, release_cmp, localeCompare in Hall.
    unfold String.leb, release_key.
    by destruct (String.compare (or_str (Raw.release_date b) "")
                   (or_str (Raw.release_date a) "")). }
  split; [apply sort_perm|]. split; [exact Hdesc|]. split; [|split].
  - intros i j a b Ha Hb Hempty Hdate.
    destruct (decide (j < i)%nat) as [|Hge]; [done|]. exfalso.
    destruct (decide (i = j)) as [->|Hne]; [congruence|].
    assert (Hle := Hdesc i j a b ltac:(lia) Ha Hb).
    rewrite Hempty in Hle. apply Hdate, string_compare_empty.
    unfold String.leb in Hle. by destruct (String.compare (release_key b) "").
  - intros d. apply sort_stable. intros a b Ha Hb.
    unfold before, release_cmp, localeCompare.
    unfold release_key in Ha, Hb. by rewrite Ha, Hb, string_compare_refl.
  - intros m1 m2 m3 H1 H2 H3.
    assert (E23 : release_cmp m2 m3 = Gt).
    { change (String.compare (release_key m3) (release_key m2) = Gt).
      by rewrite H2, H3. }
    assert (E13 : release_cmp m1 m3 = Lt).
    { change (String.compare (release_key m3) (release_key m1) = Lt).
      by rewrite H1, H3. }
    unfold sort. cbn [foldr insert_sorted]. rewrite E23. cbn [insert_sorted].
    by rewrite E13.
Qed.

Lemma sort_by_release_date_desc_witness :
  sort release_cmp [raw_dated (Some "2024-05-01"); raw_dated None; raw_dated (Some "2023-01-01")]
  = [raw_dated (Some "2024-05-01"); raw_dated (Some "2023-01-01"); raw_dated None].
Proof.
  apply (sort_by_release_date_desc []); reflexivity.
Defined.

(** ** Runs of the handler's computations *)

Lemma bind_inv {A B} (m : M A) (k : A -> M B) c r c' es :
  bind m k c = (r, c', es) ->
  (exists a c1 es1 es2,
      m c = (Some a, c1, es1) /\ k a c1 = (r, c', es2) /\ es = es1 ++ es2)
  \/ (r = None /\ m c = (None, c', es)).
Proof.
  unfold bind. destruct (m c) as [[[a|] c1] es1].
  - destruct (k a c1) as [[r2 c2] es2] eqn:Hk. intros [= <- <- <-].
    left. by exists a, c1, es1, es2.
  - intros [= <- <- <-]. by right.
Qed.

Lemma bind_Some_inv {A B} (m : M A) (k : A -> M B) c b c' es :
  bind m k c = (Some b, c', es) ->
  exists a c1 es1 es2,
    m c = (Some a, c1, es1) /\ k a c1 = (Some b, c', es2) /\ es = es1 ++ es2.
Proof. intros [H | [? _]]%bind_inv; [done | discriminate]. Qed.

Lemma apply_events_app now es1 es2 c :
  apply_events now (es1 ++ es2) c = apply_events now es2 (apply_events now es1 c).
Proof. unfold apply_events. by rewrite foldl_app. Qed.

Lemma lookup_fetch_event e : lookup_event e -> fetch_event e.
Proof. by destruct e as [|[]]. Qed.

Lemma fetch_events_store now es c :
  Forall fetch_event es -> store (apply_events now es c) = store c.
Proof.
  revert c. induction es as [|e es IH]; intros c Hes; [done|].
  apply Forall_cons in Hes as [He Hes]. simpl. rewrite IH by done.
  by destruct e as [|[]].
Qed.

Section Runs.
Variable host : Host.
Variable up : Upstream.
Variable now : Z.

Lemma queries_ok_app es1 es2 : queries_ok up es1 -> queries_ok up es2 -> queries_ok up (es1 ++ es2).
Proof.
  intros H1 H2 q Hq. apply elem_of_app in Hq as [Hq|Hq]; [by apply H1 | by apply H2].
Qed.

Lemma queries_ok_lookups es : Forall lookup_event es -> queries_ok up es.
Proof.
  intros Hes q Hq Hlist. rewrite Forall_forall in Hes.
  specialize (Hes _ Hq). simpl in Hes. congruence.
Qed.

Lemma fetches_ret {A} (a : A) : fetches up now (ret a).
Proof. intros c r c' es [= <- <- <-]. split; [done|]. split; [constructor|]. by intros _ q ?%elem_of_nil. Qed.

Lemma fetches_bind {A B} (m : M A) (k : A -> M B) :
  fetches up now m -> (forall a, fetches up now (k a)) -> fetches up now (bind m k).
Proof.
  intros Hm Hk c r c' es Hrun.
  apply bind_inv in Hrun as [(a & c1 & es1 & es2 & Hm' & Hk' & ->) | [-> Hm']].
  - apply Hm in Hm' as (-> & Hes1 & Hok1). apply Hk in Hk' as (-> & Hes2 & Hok2).
    split; [by rewrite apply_events_app|]. split; [by apply Forall_app|].
    intros Hr. apply queries_ok_app; [by apply Hok1 | by apply Hok2].
  - apply Hm in Hm' as (-> & Hes & _). split; [done|]. split; [done|].
    by intros [? ?].
Qed.

Lemma fetches_query call : is_list_query call = true -> fetches up now (query up call).
Proof.
  intros Hlist c r c' es. unfold query.
  destruct (list_query up call) as [results|] eqn:Hup; intros [= <- <- <-].
  - split; [done|]. split; [by repeat constructor|].
    intros _ q Hq _. apply list_elem_of_singleton in Hq as [= ->].
    unfold fails. destruct call; try done; by rewrite Hup.
  - split; [done|]. split; [by repeat constructor|]. by intros [? ?].
Qed.

Lemma fetches_promise_all {X A} (f : X -> Lookup A) xs :
  (forall x c, Forall lookup_event (f x c).2) -> fetches up now (promise_all now f xs).
Proof.
  intros Hf c r c' es [= <- <- <-].
  assert (Hall : Forall lookup_event (concat (map snd (map (fun x => f x c) xs)))).
  { apply Forall_concat, Forall_forall. intros es Hes.
    apply list_elem_of_fmap in Hes as ([a es'] & -> & Hin).
    apply list_elem_of_fmap in Hin as (x & Hx & _).
    specialize (Hf x c). by rewrite <- Hx in Hf. }
  assert (Hes : Forall lookup_event
            (filter (fun e => is_query e = true) (concat (map snd (map (fun x => f x c) xs)))
             ++ filter (fun e => is_query e = false)
                  (concat (map snd (map (fun x => f x c) xs))))).
  { apply Forall_app. split; apply Forall_forall; intros e He;
      apply list_elem_of_filter in He as [_ He]; revert e He; by apply Forall_forall. }
  split; [done|]. split.
  - eapply Forall_impl; [exact Hes | apply lookup_fetch_event].
  - intros _. by apply queries_ok_lookups.
Qed.

Lemma getIMDBId_events tmdbId type c : Forall lookup_event (getIMDBId up now tmdbId type c).2.
Proof.
  unfold getIMDBId. destruct (live now _); [constructor|].
  destruct (external_ids up type tmdbId); by repeat constructor.
Qed.

Lemma hasHindiAudio_events movieId c : Forall lookup_event (hasHindiAudio up now movieId c).2.
Proof.
  unfold hasHindiAudio. destruct (live now _); [constructor|].
  destruct (movie_detail up movieId) as [data|]; [|by repeat constructor].
  destruct (is_str _ _); [by repeat constructor|].
  destruct (existsb _ _); [by repeat constructor|].
  destruct (find _ _); by repeat constructor.
Qed.

Lemma formatMovie_events movie c : Forall lookup_event (formatMovie host up now movie c).2.
Proof.
  unfold formatMovie. destruct (negb _); [constructor|].
  destruct (Raw.id movie) as [tmdbId|]; [|constructor].
  destruct (tmdbId =? 0); [constructor|].
  pose proof (getIMDBId_events tmdbId Movie c) as H.
  destruct (getIMDBId up now tmdbId Movie c) as [imdbId es].
  by destruct (negb _).
Qed.

Lemma formatSeries_events series c : Forall lookup_event (formatSeries host up now series c).2.
Proof.
  unfold formatSeries. destruct (negb _); [constructor|].
  destruct (Raw.id series) as [tmdbId|]; [|constructor].
  destruct (tmdbId =? 0); [constructor|].
  pose proof (getIMDBId_events tmdbId Series c) as H.
  destruct (getIMDBId up now tmdbId Series c) as [imdbId es].
  by destruct (negb _).
Qed.

Lemma fetches_format_all format items :
  (forall x c, Forall lookup_event (format x c).2) -> fetches up now (format_all now format items).
Proof.
  intros Hf. apply fetches_bind; [by apply fetches_promise_all|].
  intros a. apply fetches_ret.
Qed.

Lemma fetches_regional_loop page langs allMovies :
  fetches up now (regional_loop host up now page langs allMovies).
Proof.
  revert allMovies. induction langs as [|lang rest IH]; intros allMovies;
    cbn [regional_loop].
  - apply fetches_ret.
  - destruct (25 <=? List.length allMovies)%nat; [apply fetches_ret|].
    apply fetches_bind; [by apply fetches_query|]. intros regionalMovies.
    apply fetches_bind; [|intros hindiChecks; apply IH].
    apply fetches_promise_all. intros m c. apply hasHindiAudio_events.
Qed.

Lemma fetches_fetch req page : fetches up now (fetch host up now req page).
Proof.
  unfold fetch. destruct (negb _).
  - destruct (String.eqb (type req) "movie").
    + unfold search_movies. apply fetches_bind; [by apply fetches_query|].
      intros movies. apply fetches_bind.
      * destruct (String.eqb (id req) "indian_latest").
        { apply fetches_bind; [|intros a; apply fetches_ret].
          apply fetches_promise_all. intros m c.
          destruct (includes _ _); [apply hasHindiAudio_events | constructor]. }
        destruct (String.eqb (id req) "hollywood_latest"); apply fetches_ret.
      * intros movies'. apply fetches_format_all, formatMovie_events.
    + destruct (String.eqb (type req) "series"); [|apply fetches_ret].
      unfold search_series. apply fetches_bind; [by apply fetches_query|].
      intros series. apply fetches_format_all, formatSeries_events.
  - destruct (_ && _).
    { apply fetches_bind; [by apply fetches_query|].
      intros movies. apply fetches_format_all, formatMovie_events. }
    destruct (_ && _).
    { unfold indian_latest. apply fetches_bind; [by apply fetches_query|].
      intros allMovies. apply fetches_bind; [apply fetches_regional_loop|].
      intros allMovies'. apply fetches_format_all, formatMovie_events. }
    destruct (_ && _); [|apply fetches_ret].
    apply fetches_bind; [by apply fetches_query|].
    intros series. apply fetches_format_all, formatSeries_events.
Qed.
End Runs.

(** ** Formatting *)

Lemma truthy_str_Some s : truthy_str s = true -> exists x, s = Some x /\ x <> "" /\ or_str s "" = x.
Proof.
  destruct s as [x|]; simpl; [|done].
  destruct (String.eqb_spec x ""); [done|]. intros _. by exists x.
Qed.

Lemma format_of_unrepresentable host up now kind item c :
  unrepresentable up now kind item c -> (format_of host up now kind item c).1 = None.
Proof.
  intros Hun. destruct kind; simpl; unfold formatMovie, formatSeries.
  all: destruct Hun as [-> | (tmdbId & -> & Hid)]; [done|].
  all: destruct (negb _); [done|]; destruct (tmdbId =? 0); [done|].
  all: destruct (getIMDBId _ _ _ _ _) as [imdbId es]; simpl in Hid; by rewrite Hid.
Qed.

Lemma format_of_presentable host up now kind item c m :
  (format_of host up now kind item c).1 = Some m -> presentable m.
Proof.
  destruct kind; simpl; unfold formatMovie, formatSeries.
  all: destruct (truthy_str (Raw.poster_path item)) eqn:Hposter; [|done]; simpl.
  all: destruct (Raw.id item) as [tmdbId|]; [|done].
  all: destruct (tmdbId =? 0); [done|].
  all: destruct (getIMDBId _ _ _ _ _) as [imdbId es].
  all: destruct (truthy_str imdbId) eqn:Hid; [|done]; simpl.
  all: intros [= <-]; unfold presentable; simpl.
  all: apply truthy_str_Some in Hposter as (p & _ & Hp & ->).
  all: apply truthy_str_Some in Hid as (i & _ & Hi & ->).
  all: split; [done|]; by exists p.
Qed.

Lemma format_all_result now format items c :
  (format_all now format items c).1.1
  = Some (filter_Boolean ((fun x => (format x c).1) <$> items)).
Proof.
  unfold format_all, bind, promise_all, ret. simpl. do 2 f_equal.
  induction items as [|x items IH]; [done|]. simpl. by rewrite IH.
Qed.

Lemma filter_Boolean_app {A} (l1 l2 : list (option A)) :
  filter_Boolean (l1 ++ l2) = filter_Boolean l1 ++ filter_Boolean l2.
Proof. unfold filter_Boolean. apply omap_app. Qed.

Lemma filter_Boolean_elem_of {A} (l : list (option A)) (x : A) :
  x ∈ filter_Boolean l <-> Some x ∈ l.
Proof.
  unfold filter_Boolean. rewrite list_elem_of_omap. split.
  - by intros (y & Hy & ->).
  - intros H. by exists (Some x).
Qed.

Lemma format_all_presentable host up now kind items c metas :
  (format_all now (format_of host up now kind) items c).1.1 = Some metas ->
  Forall presentable metas.
Proof.
  rewrite format_all_result. intros [= <-].
  apply Forall_forall. intros m Hm. apply filter_Boolean_elem_of in Hm.
  apply list_elem_of_fmap in Hm as (item & Hitem & _).
  by apply (format_of_presentable host up now kind item c).
Qed.

(** ** The catalogue handler *)

Section Handler.
Variable host : Host.
Variable up : Upstream.
Variable now : Z.

Lemma remember_run req key metas c :
  remember now req key metas c
  = (Some tt, apply_events now (remember_events req key metas) c,
     remember_events req key metas).
Proof.
  unfold remember, remember_events, bind, set_entry, ret.
  destruct (0 <? List.length metas)%nat; [|done].
  by destruct (skip req =? 0).
Qed.

(** A run of the [try] block: the fetch throws, or it yields [metas] and
    the entries for [metas] are set. *)
Lemma try_body_inv req page key c r c' es :
  try_body host up now req page key c = (r, c', es) ->
  (exists metas c1 es1,
      fetch host up now req page c = (Some metas, c1, es1)
      /\ r = Some metas
      /\ c' = apply_events now (remember_events req key metas) c1
      /\ es = es1 ++ remember_events req key metas)
  \/ (r = None /\ fetch host up now req page c = (None, c', es)).
Proof.
  unfold try_body. intros [(metas & c1 & es1 & es2 & Hfetch & Hrest & ->) | H]%bind_inv;
    [left | by right].
  unfold bind in Hrest. rewrite remember_run in Hrest. simpl in Hrest.
  injection Hrest as <- <- <-. exists metas, c1, es1.
  by rewrite app_nil_r.
Qed.

(** The runs of the handler: a hit, a fetch that throws, or a fetch that
    yields a list. *)
Lemma catalogHandler_inv req c :
  (exists v, live now (store c !! cacheKey now req c) = Some v
      /\ truthy_stored (Some v) = true
      /\ catalogHandler host up now req c = (respond v, c, []))
  \/ (miss now req c /\ exists c' es,
        fetch host up now req (page now req c) c = (None, c', es)
        /\ catalogHandler host up now req c = (respond (Items []), c', es))
  \/ (miss now req c /\ exists metas c1 es1,
        fetch host up now req (page now req c) c = (Some metas, c1, es1)
        /\ catalogHandler host up now req c
           = (respond (Items metas),
              apply_events now (remember_events req (cacheKey now req c) metas) c1,
              es1 ++ remember_events req (cacheKey now req c) metas)).
Proof.
  unfold catalogHandler, miss.
  destruct (truthy_stored (live now (store c !! cacheKey now req c))) eqn:Hhit.
  - left. destruct (live now (store c !! cacheKey now req c)) as [v|]; [|done].
    by exists v.
  - right.
    destruct (try_body host up now req (page now req c) (cacheKey now req c) c)
      as [[r c'] es] eqn:Hrun.
    apply try_body_inv in Hrun
      as [(metas & c1 & es1 & Hfetch & -> & -> & ->) | [-> Hfetch]].
    + right. split; [done|]. by exists metas, c1, es1.
    + left. split; [done|]. by exists c', es.
Qed.

Lemma remember_events_no_query req key metas q : Query q ∉ remember_events req key metas.
Proof.
  unfold remember_events. destruct (0 <? List.length metas)%nat; [|by intros ?%elem_of_nil].
  destruct (skip req =? 0); intros H; repeat (apply elem_of_cons in H as [H|H]; [done|]);
    by apply elem_of_nil in H.
Qed.

(** C1.  Whatever the request and the state of the cache, the handler
    resolves to a response.  When a list query that it sent has failed,
    the item list of the response is empty. *)
Theorem catalogHandler_fail_empty (req : Request) (c : Cache) (q : Call) :
  Query q ∈ (catalogHandler host up now req c).2 ->
  is_list_query q = true ->
  fails up q = true ->
  (catalogHandler host up now req c).1.1 = respond (Items []).
Proof.
  intros Hq Hlist Hfail.
  destruct (catalogHandler_inv req c)
    as [(v & _ & _ & Hrun) | [(_ & c' & es & _ & Hrun) | (_ & metas & c1 & es1 & Hfetch & Hrun)]];
    rewrite Hrun in Hq |- *; simpl in *.
  - by apply elem_of_nil in Hq.
  - done.
  - exfalso. apply elem_of_app in Hq as [Hq | Hq].
    + apply (fetches_fetch host up now) in Hfetch as (_ & _ & Hok).
      specialize (Hok ltac:(eauto) q Hq Hlist). congruence.
    + by apply remember_events_no_query in Hq.
Qed.

Lemma fetch_presentable req page c metas c' es :
  fetch host up now req page c = (Some metas, c', es) -> Forall presentable metas.
Proof.
  assert (Hfmt : forall kind items c0 c1 es1,
            format_all now (format_of host up now kind) items c0 = (Some metas, c1, es1) ->
            Forall presentable metas).
  { intros kind items c0 c1 es1 H.
    apply (format_all_presentable host up now kind items c0). by rewrite H. }
  unfold fetch. destruct (negb _).
  - destruct (String.eqb (type req) "movie").
    + unfold search_movies.
      intros (movies & c1 & es1 & es2 & _ & Hrest & _)%bind_Some_inv.
      apply bind_Some_inv in Hrest as (movies' & c2 & es3 & es4 & _ & Hrest & _).
      by apply (Hfmt Movie) in Hrest.
    + destruct (String.eqb (type req) "series"); [|by intros [= <- _ _]].
      unfold search_series.
      intros (series & c1 & es1 & es2 & _ & Hrest & _)%bind_Some_inv.
      by apply (Hfmt Series) in Hrest.
  - destruct (_ && _).
    { intros (movies & c1 & es1 & es2 & _ & Hrest & _)%bind_Some_inv.
      by apply (Hfmt Movie) in Hrest. }
    destruct (_ && _).
    { unfold indian_latest.
      intros (movies & c1 & es1 & es2 & _ & Hrest & _)%bind_Some_inv.
      apply bind_Some_inv in Hrest as (movies' & c2 & es3 & es4 & _ & Hrest & _).
      by apply (Hfmt Movie) in Hrest. }
    destruct (_ && _); [|by intros [= <- _ _]].
    intros (series & c1 & es1 & es2 & _ & Hrest & _)%bind_Some_inv.
    by apply (Hfmt Series) in Hrest.
Qed.

(** The list that the handler makes on a miss has presentable items only. *)
Lemma catalogHandler_presentable req c l :
  miss now req c ->
  metas (catalogHandler host up now req c).1.1 = Items l ->
  Forall presentable l.
Proof.
  intros Hmiss.
  destruct (catalogHandler_inv req c)
    as [(v & Hlive & Hhit & Hrun) | [(_ & c' & es & _ & Hrun) | (_ & metas & c1 & es1 & Hfetch & Hrun)]];
    rewrite Hrun; simpl.
  - unfold miss in Hmiss. rewrite Hlive in Hmiss. congruence.
  - by intros [= <-].
  - intros [= <-]. by apply fetch_presentable in Hfetch.
Qed.
End Handler.

Lemma catalogHandler_fail_empty_witness :
  (catalogHandler host0 upstream_tamil_down 0 (request_indian 0) empty_cache).1.1
  = respond (Items []).
Proof.
  apply (catalogHandler_fail_empty host0 upstream_tamil_down 0 (request_indian 0) empty_cache
           (DiscoverMovie "2024-06-01" "ta" "IN" "0" (Int 1))).
  - assert (E : (catalogHandler host0 upstream_tamil_down 0 (request_indian 0) empty_cache).2
                = [Query (DiscoverMovie "2024-06-01" "hi" "IN" "0" (Int 1));
                   Query (DiscoverMovie "2024-06-01" "ta" "IN" "0" (Int 1))])
      by (vm_compute; reflexivity).
    rewrite E. apply elem_of_cons. right. apply elem_of_cons. by left.
  - reflexivity.
  - reflexivity.
Defined.

(** C7.  An item without a poster reference, or whose identifier resolves
    to nothing, is formatted to the "no item" value, whatever its other
    fields hold, and the formatted list is the one obtained without that
    item.  Every item of a formatted list has a non-empty canonical
    identifier and a poster address made from a non-empty reference, and
    so has every item of a list that the handler makes. *)
Theorem unrepresentable_items_dropped (host : Host) (up : Upstream) (now : Z) (kind : Kind) :
  (forall item c, unrepresentable up now kind item c ->
     (format_of host up now kind item c).1 = None)
  /\ (forall before item after c, unrepresentable up now kind item c ->
        (format_all now (format_of host up now kind) (before ++ item :: after) c).1.1
        = (format_all now (format_of host up now kind) (before ++ after) c).1.1)
  /\ (forall items c metas,
        (format_all now (format_of host up now kind) items c).1.1 = Some metas ->
        Forall presentable metas)
  /\ (forall req c l,
        miss now req c ->
        metas (catalogHandler host up now req c).1.1 = Items l ->
        Forall presentable l).
Proof.
  split; [apply format_of_unrepresentable|]. split.
  - intros l1 item l2 c Hun. rewrite !format_all_result, !fmap_app, fmap_cons.
    rewrite !filter_Boolean_app. do 2 f_equal.
    unfold filter_Boolean at 1. simpl.
    by rewrite (format_of_unrepresentable _ _ _ _ _ _ Hun).
  - split; [apply format_all_presentable | apply catalogHandler_presentable].
Qed.

Lemma unrepresentable_items_dropped_witness :
  (format_of host0 upstream_17 0 Movie (raw_dated (Some "2024-01-01")) empty_cache).1 = None
  /\ (format_all 0 (format_of host0 upstream_17 0 Movie)
        ([movie 1 "hi" "2024-02-02"] ++ raw_dated None :: [movie 2 "hi" "2024-03-03"])
        empty_cache).1.1
     = (format_all 0 (format_of host0 upstream_17 0 Movie)
          ([movie 1 "hi" "2024-02-02"] ++ [movie 2 "hi" "2024-03-03"]) empty_cache).1.1.
Proof.
  split.
  - apply (unrepresentable_items_dropped host0 upstream_17 0 Movie). left. reflexivity.
  - apply (unrepresentable_items_dropped host0 upstream_17 0 Movie). left. reflexivity.
Defined.

(** ** Page-size learning and the result cache *)

Section Learning.
Variable host : Host.
Variable up : Upstream.
Variable now : Z.

Lemma live_later {A} (e : option (Entry A)) (now' : Z) (v : A) :
  now <= now' -> live now' e = Some v -> live now e = Some v.
Proof.
  intros Hle. unfold live. destruct e as [e|]; [|done].
  destruct (Z.leb_spec now' (expires e)); [|done]. intros [= <-].
  destruct (Z.leb_spec now (expires e)); [done | lia].
Qed.

Lemma live_mk_entry {A} (v : A) (ttl now' : Z) :
  now' <= now + ttl * 1000 -> live now' (Some (mk_entry now v (Some ttl))) = Some v.
Proof.
  intros Hle. unfold live, mk_entry. simpl.
  destruct (Z.leb_spec now' (now + ttl * 1000)); [done | lia].
Qed.

(** The writes of the handler into [store]. *)
Lemma catalogHandler_store_events req c key v ttl :
  SetEntry (WStore key v ttl) ∈ (catalogHandler host up now req c).2 ->
  exists l, metas (catalogHandler host up now req c).1.1 = Items l
    /\ l <> []
    /\ ((key = cacheKey now req c /\ v = Items l /\ ttl = None)
        \/ (skip req = 0 /\ key = pageSizeKey req
            /\ v = Num (Z.of_nat (List.length l)) /\ ttl = Some 86400)).
Proof.
  destruct (catalogHandler_inv host up now req c)
    as [(v' & _ & _ & Hrun) | [(_ & c' & es & Hfetch & Hrun)
                              | (_ & l & c1 & es1 & Hfetch & Hrun)]];
    rewrite Hrun; simpl.
  - by intros ?%elem_of_nil.
  - intros Hin. apply (fetches_fetch host up now) in Hfetch as (_ & Hev & _).
    rewrite Forall_forall in Hev. by apply Hev in Hin.
  - intros Hin. apply elem_of_app in Hin as [Hin|Hin].
    { apply (fetches_fetch host up now) in Hfetch as (_ & Hev & _).
      rewrite Forall_forall in Hev. by apply Hev in Hin. }
    unfold remember_events in Hin.
    destruct (0 <? List.length l)%nat eqn:Hlen; [|by apply elem_of_nil in Hin].
    exists l. split; [done|]. split; [by destruct l|].
    apply elem_of_cons in Hin as [[= -> -> ->] | Hin]; [by left|].
    destruct (Z.eqb_spec (skip req) 0) as [Hskip|_]; [|by apply elem_of_nil in Hin].
    apply list_elem_of_singleton in Hin as [= -> -> ->]. by right.
Qed.

(** After a first page fetched with a non-empty result, the signature's
    page size is the length of the result, for a day. *)
Lemma catalogHandler_learns req c l now' :
  miss now req c ->
  skip req = 0 ->
  metas (catalogHandler host up now req c).1.1 = Items l ->
  l <> [] ->
  now' <= now + 86400 * 1000 ->
  live now' (store (catalogHandler host up now req c).1.2 !! pageSizeKey req)
  = Some (Num (Z.of_nat (List.length l))).
Proof.
  intros Hmiss Hskip Hmetas Hne Hnow'. revert Hmetas.
  destruct (catalogHandler_inv host up now req c)
    as [(v & Hlive & Hhit & Hrun) | [(_ & c' & es & _ & Hrun)
                                    | (_ & metas & c1 & es1 & Hfetch & Hrun)]];
    rewrite Hrun; simpl.
  - unfold miss in Hmiss. rewrite Hlive in Hmiss. congruence.
  - intros [= <-]. done.
  - intros [= <-]. unfold remember_events.
    destruct (0 <? List.length metas)%nat eqn:Hlen; [|by destruct metas].
    rewrite Hskip. simpl. rewrite lookup_insert_eq.
    by apply live_mk_entry.
Qed.

(** C3, amended.  The handler sets a page size (a number in [store]) only
    in a run for the client offset 0 whose result list is not empty,
    under the key of the request's signature, and the number is the
    length of that list.  It does so in every such run that fetches the
    list, and a request that is answered from the cache sets nothing.
    When the first page has been fetched with a result of [n > 0] items,
    a request of the same signature made within the day computes its
    page with [n]; with 17 items, the offset 17 gives page 2 and the
    offset 34 gives page 3. *)
Theorem page_size_learned_on_first_page (req : Request) (c : Cache) :
  (forall key n ttl,
      SetEntry (WStore key (Num n) ttl) ∈ (catalogHandler host up now req c).2 ->
      skip req = 0 /\ key = pageSizeKey req /\ ttl = Some 86400
      /\ exists l, metas (catalogHandler host up now req c).1.1 = Items l
           /\ l <> [] /\ n = Z.of_nat (List.length l))
  /\ (~ miss now req c -> (catalogHandler host up now req c).2 = [])
  /\ (forall l,
        miss now req c -> skip req = 0 ->
        metas (catalogHandler host up now req c).1.1 = Items l -> l <> [] ->
        SetEntry (WStore (pageSizeKey req) (Num (Z.of_nat (List.length l))) (Some 86400))
        ∈ (catalogHandler host up now req c).2)
  /\ (forall l now' req',
        miss now req c -> skip req = 0 ->
        metas (catalogHandler host up now req c).1.1 = Items l -> l <> [] ->
        now <= now' <= now + 86400 * 1000 ->
        pageSizeKey req' = pageSizeKey req ->
        page now' req' (catalogHandler host up now req c).1.2
        = Int (skip req' / Z.of_nat (List.length l) + 1))
  /\ (forall l now' req',
        miss now req c -> skip req = 0 ->
        metas (catalogHandler host up now req c).1.1 = Items l ->
        List.length l = 17%nat ->
        now <= now' <= now + 86400 * 1000 ->
        pageSizeKey req' = pageSizeKey req ->
        (skip req' = 17 -> page now' req' (catalogHandler host up now req c).1.2 = Int 2)
        /\ (skip req' = 34 -> page now' req' (catalogHandler host up now req c).1.2 = Int 3)).
Proof.
  assert (Hpage : forall l now' req',
            miss now req c -> skip req = 0 ->
            metas (catalogHandler host up now req c).1.1 = Items l -> l <> [] ->
            now <= now' <= now + 86400 * 1000 ->
            pageSizeKey req' = pageSizeKey req ->
            page now' req' (catalogHandler host up now req c).1.2
            = Int (skip req' / Z.of_nat (List.length l) + 1)).
  { intros l now' req' Hmiss Hskip Hmetas Hne [_ Hnow'] Hkey.
    pose proof (catalogHandler_learns req c l now' Hmiss Hskip Hmetas Hne Hnow') as Hlive.
    unfold page. rewrite (pageSize_learned _ _ _ (Z.of_nat (List.length l))).
    - apply upstreamPage_Num. destruct l; [done | simpl; lia].
    - destruct l; [done | simpl; lia].
    - by rewrite Hkey. }
  split; [|split; [|split; [|split; [exact Hpage|]]]].
  - intros key n ttl Hin.
    apply catalogHandler_store_events in Hin
      as (l & Hmetas & Hne & [(_ & [=] & _) | (Hskip & -> & [= ->] & ->)]).
    repeat split; try done. by exists l.
  - intros Hhit.
    destruct (catalogHandler_inv host up now req c)
      as [(v & _ & _ & Hrun) | [(Hmiss & _) | (Hmiss & _)]]; try done.
    by rewrite Hrun.
  - intros l Hmiss Hskip.
    destruct (catalogHandler_inv host up now req c)
      as [(v & Hlive & Hhit & Hrun) | [(_ & c' & es & _ & Hrun)
                                      | (_ & metas & c1 & es1 & Hfetch & Hrun)]];
      rewrite Hrun; simpl.
    + unfold miss in Hmiss. rewrite Hlive in Hmiss. congruence.
    + by intros [= <-].
    + intros [= <-] Hne. apply elem_of_app. right. unfold remember_events.
      destruct (0 <? List.length metas)%nat eqn:Hlen; [|by destruct metas].
      rewrite Hskip. simpl. apply elem_of_cons. right. apply elem_of_cons. by left.
  - intros l now' req' Hmiss Hskip Hmetas Hlen Hnow' Hkey.
    assert (Hne : l <> []) by (by destruct l).
    pose proof (Hpage l now' req' Hmiss Hskip Hmetas Hne Hnow' Hkey) as H.
    rewrite Hlen in H. split; intros Hs; rewrite H, Hs; reflexivity.
Qed.
End Learning.

Lemma page_size_learned_on_first_page_witness :
  page 60000 (request_indian 17)
    (catalogHandler host0 upstream_17 0 (request_indian 0) empty_cache).1.2 = Int 2
  /\ page 60000 (request_indian 34)
       (catalogHandler host0 upstream_17 0 (request_indian 0) empty_cache).1.2 = Int 3.
Proof.
  destruct (page_size_learned_on_first_page host0 upstream_17 0 (request_indian 0) empty_cache)
    as (_ & _ & _ & _ & H).
  destruct (catalogHandler host0 upstream_17 0 (request_indian 0) empty_cache)
    as [[r c'] es] eqn:Hrun.
  assert (Hmetas : exists l, metas r = Items l /\ List.length l = 17%nat).
  { vm_compute in Hrun. injection Hrun as <- _ _. eexists. split; reflexivity. }
  destruct Hmetas as (l & Hmetas & Hlen).
  split.
  - apply (H l 60000 (request_indian 17)); first [done | lia].
  - apply (H l 60000 (request_indian 34)); first [done | lia].
Defined.

(** C3 as it is written, at an input on which it fails.  A request
    at the offset 5 fetches the first page, 17 items, and learns nothing,
    the offset not being 0.  A request at the offset 0 is then answered
    from the cache: a first-page response of 17 items, with no effect, so
    no page size is learned.  A later request at the offset 17 computes
    the page 1 with the default page size 20, not the page 2, and one at
    the offset 34 computes the page 2, not the page 3. *)
Lemma first_page_from_cache_learns_nothing :
  let warm := catalogHandler host0 upstream_17 0 (request_indian 5) empty_cache in
  let first := catalogHandler host0 upstream_17 1000 (request_indian 0) warm.1.2 in
  skip (request_indian 0) = 0
  /\ (exists l, first.1.1 = respond (Items l) /\ List.length l = 17%nat)
  /\ first.2 = []
  /\ live 2000 (store first.1.2 !! pageSizeKey (request_indian 0)) = None
  /\ page 2000 (request_indian 17) first.1.2 = Int 1
  /\ page 2000 (request_indian 17) first.1.2 <> Int 2
  /\ page 2000 (request_indian 34) first.1.2 = Int 2
  /\ page 2000 (request_indian 34) first.1.2 <> Int 3.
Proof.
  vm_compute. split; [reflexivity|]. split; [eexists; split; reflexivity|].
  repeat split; try reflexivity; discriminate.
Qed.

(** ** The regional fan-out *)

Lemma queried_langs_app es1 es2 :
  queried_langs (es1 ++ es2) = queried_langs es1 ++ queried_langs es2.
Proof. apply omap_app. Qed.

Lemma queried_langs_lookups es : Forall lookup_event es -> queried_langs es = [].
Proof.
  induction 1 as [|e es He _ IH]; [done|].
  destruct e as [q|w]; [|exact IH].
  destruct q; simpl in He; try discriminate; exact IH.
Qed.

Section FanOut.
Variable host : Host.
Variable up : Upstream.
Variable now : Z.

Lemma promise_all_lookups {X A} (f : X -> Lookup A) xs c r c' es :
  (forall x c, Forall lookup_event (f x c).2) ->
  promise_all now f xs c = (r, c', es) -> Forall lookup_event es.
Proof.
  intros Hf [= _ _ <-].
  assert (Hall : Forall lookup_event (concat (map snd (map (fun x => f x c) xs)))).
  { apply Forall_concat, Forall_forall. intros es Hes.
    apply list_elem_of_fmap in Hes as ([a es'] & -> & Hin).
    apply list_elem_of_fmap in Hin as (x & Hx & _).
    specialize (Hf x c). by rewrite <- Hx in Hf. }
  apply Forall_app. split; apply Forall_forall; intros e He;
    apply list_elem_of_filter in He as [_ He]; revert e He; by apply Forall_forall.
Qed.

(** With the floor reached, the loop does nothing more. *)
Lemma regional_loop_full page langs allMovies c :
  (25 <= List.length allMovies)%nat ->
  regional_loop host up now page langs allMovies c = (Some allMovies, c, []).
Proof.
  intros Hfull. destruct langs as [|lang rest]; cbn [regional_loop]; [done|].
  destruct (Nat.leb_spec 25 (List.length allMovies)); [done | lia].
Qed.

Lemma turn_queries page lang allMovies c r c' es :
  turn host up now page lang allMovies c = (r, c', es) -> queried_langs es = [lang].
Proof.
  unfold turn, bind, query, ret.
  destruct (list_query up _) as [results|]; [|by intros [= _ _ <-]].
  destruct (promise_all now _ (default [] results) c) as [[checks c1] es1] eqn:Hall.
  apply promise_all_lookups in Hall; [|intros; apply hasHindiAudio_events].
  destruct checks as [checks|]; intros [= _ _ <-].
  - rewrite app_nil_r. change (lang :: queried_langs es1 = [lang]).
    by rewrite queried_langs_lookups.
  - change (lang :: queried_langs es1 = [lang]). by rewrite queried_langs_lookups.
Qed.

Lemma regional_loop_cons page lang rest allMovies c :
  (List.length allMovies < 25)%nat ->
  regional_loop host up now page (lang :: rest) allMovies c
  = bind (turn host up now page lang allMovies) (regional_loop host up now page rest) c.
Proof.
  intros Hlt. cbn [regional_loop].
  destruct (Nat.leb_spec 25 (List.length allMovies)); [lia|].
  unfold turn, bind, query, ret.
  destruct (list_query up _) as [results|]; [|done].
  destruct (promise_all now _ (default [] results) c) as [[[checks|] c1] es1]; [|done].
  destruct (regional_loop host up now page rest _ c1) as [[r c2] es2]. by rewrite app_nil_r.
Qed.

(** C4.  In the loop over the secondary languages, the languages queried
    are the first [k] of the list, in its order.  A language is among them
    exactly when the accumulated list holds fewer than 25 items at its
    turn, that is after the loop has run over the languages before it.
    When the accumulated list holds 25 items or more at a turn, the loop
    ends there with that list: no language from that turn on is queried. *)
Theorem regional_loop_floor (page : JsNum) (langs : list string) (allMovies : list Raw.t)
    (c : Cache) :
  (exists k : nat,
      queried_langs (regional_loop host up now page langs allMovies c).2 = take k langs
      /\ forall i lang acc ci ei,
           langs !! i = Some lang ->
           regional_loop host up now page (take i langs) allMovies c = (Some acc, ci, ei) ->
           ((i < k)%nat <-> (List.length acc < 25)%nat))
  /\ (forall i acc ci ei,
        regional_loop host up now page (take i langs) allMovies c = (Some acc, ci, ei) ->
        (25 <= List.length acc)%nat ->
        regional_loop host up now page langs allMovies c = (Some acc, ci, ei)
        /\ queried_langs ei = queried_langs (regional_loop host up now page langs allMovies c).2).
Proof.
  split.
  - revert allMovies c. induction langs as [|lang rest IH]; intros allMovies c.
    { exists 0%nat. split; [done|]. by intros i lang acc ci ei ?. }
    destruct (Nat.leb_spec 25 (List.length allMovies)) as [Hfull|Hlt].
    { exists 0%nat. rewrite regional_loop_full by done. split; [done|].
      intros i lang' acc ci ei _. rewrite regional_loop_full by done.
      intros [= <- _ _]. lia. }
    rewrite regional_loop_cons by done.
    destruct (turn host up now page lang allMovies c) as [[[acc1|] c1] es1] eqn:Hturn.
    + destruct (IH acc1 c1) as (k & Hk & Hturns).
      exists (S k). split.
      * unfold bind. rewrite Hturn.
        destruct (regional_loop host up now page rest acc1 c1) as [[r c2] es2]. simpl in *.
        rewrite queried_langs_app, (turn_queries _ _ _ _ _ _ _ Hturn), Hk. done.
      * intros [|i] lang' acc ci ei Hlang.
        { simpl. intros [= <- _ _]. split; [done | lia]. }
        simpl in Hlang. rewrite firstn_cons, regional_loop_cons by done.
        unfold bind. rewrite Hturn.
        destruct (regional_loop host up now page (take i rest) acc1 c1) as [[r c2] es2] eqn:Hrest.
        intros [= -> _ _]. rewrite <- (Hturns i lang' acc c2 es2 Hlang Hrest). lia.
    + exists 1%nat. split.
      * unfold bind. rewrite Hturn. simpl.
        by rewrite (turn_queries _ _ _ _ _ _ _ Hturn).
      * intros [|i] lang' acc ci ei Hlang.
        { simpl. intros [= <- _ _]. split; [done | lia]. }
        rewrite firstn_cons, regional_loop_cons by done.
        unfold bind. by rewrite Hturn.
  - revert allMovies c. induction langs as [|lang rest IH]; intros allMovies c i acc ci ei.
    { rewrite take_nil. intros H _. by rewrite H. }
    destruct i as [|i].
    { intros H Hfull. injection H as <- <- <-. by rewrite regional_loop_full. }
    rewrite firstn_cons.
    destruct (Nat.leb_spec 25 (List.length allMovies)) as [Hfull|Hlt].
    { rewrite !regional_loop_full by done. by intros [= <- <- <-]. }
    rewrite !regional_loop_cons by done. unfold bind.
    destruct (turn host up now page lang allMovies c) as [[[acc1|] c1] es1] eqn:Hturn; [|done].
    destruct (regional_loop host up now page (take i rest) acc1 c1) as [[r c2] es2] eqn:Hrest.
    intros [= -> <- <-] Hfull.
    destruct (IH acc1 c1 i acc c2 es2 Hrest Hfull) as [Hrun _].
    by rewrite Hrun.
Qed.
End FanOut.

(** The floor of the composite catalogue: 10 + 8 + 8 items reach 25, and
    the languages [ml], [kn] and [mr] are not queried. *)
Example indian_latest_stops_at_floor :
  queried_langs (catalogHandler host0 upstream_regional 0 (request_indian 0) empty_cache).2
  = ["hi"; "ta"; "te"].
Proof. vm_compute. reflexivity. Qed.

Lemma regional_loop_floor_witness :
  exists k : nat,
    queried_langs
      (regional_loop host0 upstream_regional 0 (Int 1) regionalLangs (movies 100 10 "hi")
         empty_cache).2
    = take k regionalLangs
    /\ forall i lang acc ci ei,
         regionalLangs !! i = Some lang ->
         regional_loop host0 upstream_regional 0 (Int 1) (take i regionalLangs)
           (movies 100 10 "hi") empty_cache = (Some acc, ci, ei) ->
         ((i < k)%nat <-> (List.length acc < 25)%nat).
Proof.
  apply (regional_loop_floor host0 upstream_regional 0 (Int 1) regionalLangs
           (movies 100 10 "hi") empty_cache).
Defined.

(** ** What the result cache holds *)

Section ResultCache.
Variable host : Host.
Variable up : Upstream.
Variable now : Z.

(** A result list is stored only when it is not empty, under the key of
    the request, and it is the list of the response. *)
Lemma catalogHandler_stores_nonempty req c key l ttl :
  SetEntry (WStore key (Items l) ttl) ∈ (catalogHandler host up now req c).2 ->
  l <> [] /\ key = cacheKey now req c /\ ttl = None
  /\ metas (catalogHandler host up now req c).1.1 = Items l.
Proof.
  intros (l' & Hmetas & Hne & [(-> & [= ->] & ->) | (_ & _ & [=] & _)])%catalogHandler_store_events.
  done.
Qed.

(** An empty result leaves [store] as it was: neither the list nor a page
    size is kept. *)
Lemma catalogHandler_empty_not_stored req c :
  miss now req c ->
  metas (catalogHandler host up now req c).1.1 = Items [] ->
  store (catalogHandler host up now req c).1.2 = store c.
Proof.
  intros Hmiss.
  destruct (catalogHandler_inv host up now req c)
    as [(v & Hlive & Hhit & Hrun) | [(_ & c' & es & Hfetch & Hrun)
                                    | (_ & l & c1 & es1 & Hfetch & Hrun)]];
    rewrite Hrun; simpl.
  - unfold miss in Hmiss. rewrite Hlive in Hmiss. congruence.
  - intros _. apply (fetches_fetch host up now) in Hfetch as (-> & Hev & _).
    by apply fetch_events_store.
  - intros [= ->]. simpl.
    apply (fetches_fetch host up now) in Hfetch as (-> & Hev & _).
    by apply fetch_events_store.
Qed.

(** After an empty result, the same request misses the cache again at
    any later time at which it maps to the same page. *)
Lemma catalogHandler_empty_refetched req c now' :
  miss now req c ->
  metas (catalogHandler host up now req c).1.1 = Items [] ->
  now <= now' ->
  page now' req (catalogHandler host up now req c).1.2 = page now req c ->
  miss now' req (catalogHandler host up now req c).1.2.
Proof.
  intros Hmiss Hempty Hle Hpage. unfold miss, cacheKey in *. rewrite Hpage.
  rewrite (catalogHandler_empty_not_stored req c Hmiss Hempty).
  destruct (live now' (store c !! _)) as [v|] eqn:Hlive; [|done].
  apply (live_later now) in Hlive; [|done]. by rewrite Hlive in Hmiss.
Qed.

Lemma apply_events_lists_nonempty es c :
  (forall key l ttl, SetEntry (WStore key (Items l) ttl) ∈ es -> l <> []) ->
  lists_nonempty c -> lists_nonempty (apply_events now es c).
Proof.
  revert c. induction es as [|e es IH]; intros c Hes Hc; [done|].
  simpl. apply IH.
  - intros key l ttl Hin. apply (Hes key l ttl). by apply elem_of_cons; right.
  - destruct e as [q|[t i v ttl|i v ttl|k v ttl]]; try done.
    intros key e. simpl. destruct (decide (k = key)) as [->|Hne].
    + rewrite lookup_insert_eq. intros [= <-]. simpl.
      destruct v as [n|l]; [done|]. intros [= ->].
      by apply (Hes key [] ttl); [apply elem_of_cons; left|].
    + rewrite lookup_insert_ne by done. apply Hc.
Qed.

Lemma catalogHandler_lists_nonempty req c :
  lists_nonempty c -> lists_nonempty (catalogHandler host up now req c).1.2.
Proof.
  intros Hc.
  pose proof (fun key l ttl => catalogHandler_stores_nonempty req c key l ttl) as Hstored.
  destruct (catalogHandler_inv host up now req c)
    as [(v & _ & _ & Hrun) | [(_ & c' & es & Hfetch & Hrun)
                             | (_ & l & c1 & es1 & Hfetch & Hrun)]];
    rewrite Hrun in Hstored |- *; simpl in *; [done | |].
  - apply (fetches_fetch host up now) in Hfetch as (-> & _ & _).
    apply apply_events_lists_nonempty; [|done]. intros key l ttl Hin.
    by apply (Hstored key l ttl).
  - apply (fetches_fetch host up now) in Hfetch as (-> & _ & _).
    rewrite <- apply_events_app.
    apply apply_events_lists_nonempty; [|done]. intros key l' ttl Hin.
    by apply (Hstored key l' ttl).
Qed.

(** A hit that hands out a list hands out a non-empty one. *)
Lemma catalogHandler_hit_nonempty req c l :
  lists_nonempty c ->
  (catalogHandler host up now req c).2 = [] ->
  metas (catalogHandler host up now req c).1.1 = Items l ->
  ~ miss now req c ->
  l <> [].
Proof.
  intros Hc _ Hmetas Hhit.
  destruct (catalogHandler_inv host up now req c)
    as [(v & Hlive & _ & Hrun) | [(Hmiss & _) | (Hmiss & _)]]; try done.
  rewrite Hrun in Hmetas. simpl in Hmetas. subst v.
  unfold live in Hlive. destruct (store c !! _) as [e|] eqn:He; [|done].
  destruct (now <=? expires e); [|done]. injection Hlive as Hv.
  intros ->. by apply (Hc _ _ He).
Qed.
End ResultCache.

(** *** The catalogues of the manifest

    Their ids do not start with [ps_], so the keys of their lists meet no
    page-size key: every cache hit of such a request hands out a non-empty
    list. *)

Lemma manifest_cacheKey now req c :
  manifest_id (id req) -> starts_ps (cacheKey now req c) = false.
Proof.
  unfold cacheKey, pageSizeKeyBase. intros [-> | [-> | ->]];
    by destruct (String.eqb (searchQuery req) "").
Qed.

Lemma keyed_insert c key v now ttl :
  keyed c ->
  (if starts_ps key then exists n, v = Num n else exists l, v = Items l /\ l <> []) ->
  keyed (cache_set now (WStore key v ttl) c).
Proof.
  intros Hc Hv key' e. simpl. destruct (decide (key = key')) as [<-|Hne].
  - rewrite lookup_insert_eq. by intros [= <-].
  - rewrite lookup_insert_ne by done. apply Hc.
Qed.

Lemma catalogHandler_keyed host up now req c :
  keyed c -> manifest_id (id req) -> keyed (catalogHandler host up now req c).1.2.
Proof.
  intros Hc Hid.
  assert (Hfetch : forall r c1 es,
            fetch host up now req (page now req c) c = (r, c1, es) -> keyed c1).
  { intros r c1 es (-> & Hev & _)%fetches_fetch. intros key e.
    rewrite fetch_events_store by done. apply Hc. }
  destruct (catalogHandler_inv host up now req c)
    as [(v & _ & _ & Hrun) | [(_ & c' & es & Hf & Hrun) | (_ & l & c1 & es1 & Hf & Hrun)]];
    rewrite Hrun; simpl; [done | by eapply Hfetch |].
  apply Hfetch in Hf. unfold remember_events.
  destruct (0 <? List.length l)%nat eqn:Hlen; [|done].
  assert (Hlist : keyed (cache_set now (WStore (cacheKey now req c) (Items l) None) c1)).
  { apply keyed_insert; [done|]. rewrite manifest_cacheKey by done.
    exists l. split; [done | by destruct l]. }
  destruct (skip req =? 0); [|done].
  apply (keyed_insert _ (pageSizeKey req)); [done|]. by eexists.
Qed.

Lemma reachable_keyed c : reachable c -> keyed c.
Proof.
  induction 1 as [|host up now req c _ IH Hid].
  - intros key e. cbn [store empty_cache]. by rewrite lookup_empty.
  - by apply catalogHandler_keyed.
Qed.

(** In a process that has served requests for the catalogues of the
    manifest only, a cache hit of such a request hands out a non-empty
    list. *)
Lemma manifest_hit_nonempty host up now req c :
  reachable c -> manifest_id (id req) -> ~ miss now req c ->
  exists l, (catalogHandler host up now req c).1.1 = respond (Items l) /\ l <> [].
Proof.
  intros Hc%reachable_keyed Hid Hhit.
  destruct (catalogHandler_inv host up now req c)
    as [(v & Hlive & _ & Hrun) | [(Hmiss & _) | (Hmiss & _)]]; try done.
  rewrite Hrun. simpl. unfold live in Hlive.
  destruct (store c !! cacheKey now req c) as [e|] eqn:He; [|done].
  destruct (now <=? expires e); [|done]. injection Hlive as <-.
  apply Hc in He. rewrite manifest_cacheKey in He by done.
  destruct He as (l & -> & Hne). by exists l.
Qed.

(** C10, at the input on which the code departs from it.  A first request
    has the catalogue id [x] and the search text [y_p1]: its result of one
    item is stored, and its length 1 is stored as the page size under
    [ps_x_s_y_p1].  A second request has the catalogue id [ps_x] and the
    search text [y]: the key of its first page is [ps_x_s_y_p1] too, the
    lookup finds the number, and the handler answers from the cache with
    [metas] being the number 1, not a list. *)
Theorem cache_hit_hands_out_page_size :
  let first := catalogHandler host0 upstream_search 0 (request_search "x" "y_p1") empty_cache in
  let second := catalogHandler host0 upstream_search 1000 (request_search "ps_x" "y") first.1.2 in
  pageSizeKey (request_search "x" "y_p1") = "ps_x_s_y_p1"
  /\ cacheKey 1000 (request_search "ps_x" "y") first.1.2 = "ps_x_s_y_p1"
  /\ (exists m, metas first.1.1 = Items [m])
  /\ second.1.1 = respond (Num 1)
  /\ second.2 = [].
Proof.
  vm_compute. repeat split; try reflexivity. eexists. reflexivity.
Qed.

(** ** Memoization of the item lookups *)

Lemma live_expired {A} (now : Z) (v : A) (ttl now' : Z) :
  now + ttl * 1000 < now' -> live now' (Some (mk_entry now v (Some ttl))) = None.
Proof.
  intros Hlt. unfold live, mk_entry. simpl.
  destruct (Z.leb_spec now' (now + ttl * 1000)); [lia | done].
Qed.

(** X1.  The resolver memoizes.  After a lookup that asked the upstream,
    a lookup of the same item is answered from the cache, with the same
    answer and no upstream call, whatever the upstream would answer
    now: for a day when the call had succeeded, for an hour when it had
    failed. *)
Theorem getIMDBId_memoized (up up' : Upstream) (now now' : Z) (tmdbId : Z) (type : Kind)
    (c : Cache) :
  live now (imdb c !! (type, tmdbId)) = None ->
  now' <= now + (if external_ids up type tmdbId is Some _ then 86400 else 3600) * 1000 ->
  getIMDBId up' now' tmdbId type (apply_events now (getIMDBId up now tmdbId type c).2 c)
  = ((getIMDBId up now tmdbId type c).1, []).
Proof.
  intros Hmiss Hnow'. unfold getIMDBId at 2 3. rewrite Hmiss.
  destruct (external_ids up type tmdbId) as [imdb_id|]; simpl;
    unfold getIMDBId; simpl; rewrite lookup_insert_eq, live_mk_entry by done; done.
Qed.

Lemma getIMDBId_memoized_witness :
  getIMDBId upstream_without_ids 3600000 278 Movie
    (apply_events 0 (getIMDBId upstream_search 0 278 Movie empty_cache).2 empty_cache)
  = ((getIMDBId upstream_search 0 278 Movie empty_cache).1, []).
Proof.
  apply (getIMDBId_memoized upstream_search upstream_without_ids 0 3600000 278 Movie empty_cache).
  - reflexivity.
  - simpl. lia.
Defined.

(** A lookup of the classifier on a miss: one call, and the answer stored
    for a day when it is [true] and for an hour when it is [false]. *)
Lemma hasHindiAudio_miss up now movieId c :
  live now (hindi c !! movieId) = None ->
  exists answer : bool,
    hasHindiAudio up now movieId c
    = (answer, [Query (MovieDetail movieId);
                SetEntry (WHindi movieId answer (Some (if answer then 86400 else 3600)))]).
Proof.
  intros Hmiss. unfold hasHindiAudio. rewrite Hmiss.
  destruct (movie_detail up movieId) as [data|]; [|by exists false].
  destruct (is_str _ _); [by exists true|].
  destruct (existsb _ _); [by exists true|].
  destruct (find _ _); [by exists true | by exists false].
Qed.

(** X2.  The classifier memoizes.  After a lookup that asked the upstream,
    a lookup of the same item is answered from the cache, with the same
    answer and no upstream call, whatever the upstream would answer
    now: for a day after the answer [true], for an hour after the answer
    [false]. *)
Theorem hasHindiAudio_memoized (up up' : Upstream) (now now' : Z) (movieId : option Z)
    (c : Cache) :
  live now (hindi c !! movieId) = None ->
  now' <= now + (if (hasHindiAudio up now movieId c).1 then 86400 else 3600) * 1000 ->
  hasHindiAudio up' now' movieId (apply_events now (hasHindiAudio up now movieId c).2 c)
  = ((hasHindiAudio up now movieId c).1, []).
Proof.
  intros Hmiss.
  destruct (hasHindiAudio_miss up now movieId c Hmiss) as (answer & ->). simpl.
  intros Hnow'. unfold hasHindiAudio. simpl.
  by rewrite lookup_insert_eq, live_mk_entry.
Qed.

Lemma hasHindiAudio_memoized_witness :
  hasHindiAudio upstream_without_ids 86400000 (Some 7)
    (apply_events 0 (hasHindiAudio upstream_dubbed 0 (Some 7) empty_cache).2 empty_cache)
  = ((hasHindiAudio upstream_dubbed 0 (Some 7) empty_cache).1, []).
Proof.
  apply (hasHindiAudio_memoized upstream_dubbed upstream_without_ids 0 86400000 (Some 7)
           empty_cache).
  - reflexivity.
  - replace (hasHindiAudio upstream_dubbed 0 (Some 7) empty_cache).1 with true by reflexivity.
    lia.
Defined.

(** X3.  The classifier fails closed.  When the detail call fails, the
    answer is [false] and it is stored for an hour: within the hour the
    item stays classified [false] without a call, also when the upstream
    has recovered, and the first lookup after the hour asks the upstream
    again. *)
Theorem hasHindiAudio_fail_closed (up up' : Upstream) (now now' : Z) (movieId : option Z)
    (c : Cache) :
  live now (hindi c !! movieId) = None ->
  movie_detail up movieId = None ->
  hasHindiAudio up now movieId c
  = (false, [Query (MovieDetail movieId); SetEntry (WHindi movieId false (Some 3600))])
  /\ (now' <= now + 3600 * 1000 ->
      hasHindiAudio up' now' movieId (apply_events now (hasHindiAudio up now movieId c).2 c)
      = (false, []))
  /\ (now + 3600 * 1000 < now' ->
      exists w,
        (hasHindiAudio up' now' movieId (apply_events now (hasHindiAudio up now movieId c).2 c)).2
        = [Query (MovieDetail movieId); SetEntry w]).
Proof.
  intros Hmiss Hup.
  assert (Hrun : hasHindiAudio up now movieId c
                 = (false, [Query (MovieDetail movieId);
                            SetEntry (WHindi movieId false (Some 3600))])).
  { unfold hasHindiAudio. by rewrite Hmiss, Hup. }
  rewrite Hrun. split; [done|]. simpl. split; intros Hnow'; unfold hasHindiAudio; simpl;
    rewrite lookup_insert_eq.
  - by rewrite live_mk_entry.
  - rewrite live_expired by done.
    destruct (movie_detail up' movieId) as [data|]; [|by eexists].
    destruct (is_str _ _); [by eexists|].
    destruct (existsb _ _); [by eexists|].
    destruct (find _ _); by eexists.
Qed.

Lemma hasHindiAudio_fail_closed_witness :
  hasHindiAudio upstream_dubbed 3600000 (Some 7)
    (apply_events 0 (hasHindiAudio upstream_17 0 (Some 7) empty_cache).2 empty_cache)
  = (false, []).
Proof.
  apply (hasHindiAudio_fail_closed upstream_17 upstream_dubbed 0 3600000 (Some 7) empty_cache).
  - reflexivity.
  - reflexivity.
  - lia.
Defined.

(** ** Fields of a formatted item *)

Lemma or_str_nonempty a b : b <> "" -> or_str a b <> "".
Proof.
  intros Hb. destruct a as [s|]; simpl; [|done].
  by destruct (String.eqb_spec s "").
Qed.

Lemma or_str_empty a : or_str a "" = "" <-> truthy_str a = false.
Proof.
  destruct a as [s|]; simpl; [|done].
  destruct (String.eqb_spec s ""); simpl; split; congruence.
Qed.

Lemma assoc_language_map lang label :
  assoc lang language_map = Some label -> label <> "" /\ lang <> "".
Proof.
  unfold language_map. cbn [assoc].
  repeat match goal with
         | |- context [String.eqb lang ?s] =>
             destruct (String.eqb_spec lang s) as [->|_]; [by intros [= <-]|]
         end.
  done.
Qed.

Lemma getLanguageLabel_empty lang : getLanguageLabel lang = "" <-> lang = "".
Proof.
  unfold getLanguageLabel. destruct (assoc lang language_map) as [label|] eqn:Hassoc.
  - apply assoc_language_map in Hassoc as [? ?]. split; congruence.
  - by destruct lang.
Qed.

Lemma releaseInfo_of_None host date :
  releaseInfo_of host date = None <-> truthy_str date = false.
Proof.
  unfold releaseInfo_of, formatReleaseDate. destruct date as [d|]; simpl; [|done].
  destruct (String.eqb_spec d "") as [->|Hd]; simpl; [done|].
  by destruct (String.eqb_spec (local_date host d) "").
Qed.

Lemma releaseInfo_of_Some host date r : releaseInfo_of host date = Some r -> r <> "".
Proof.
  unfold releaseInfo_of, formatReleaseDate. destruct date as [d|]; simpl; [|done].
  destruct (String.eqb_spec d "") as [->|Hd]; simpl; [done|].
  destruct (String.eqb_spec (local_date host d) "") as [He|Hne]; simpl.
  - intros [= <-]. destruct d; [done | discriminate].
  - by intros [= <-].
Qed.

Lemma image_None base path : image base path = None <-> truthy_str path = false.
Proof. unfold image. by destruct (truthy_str path). Qed.

(** What a formatter makes of the fields of an item. *)
Lemma format_of_Some host up now kind item c m :
  (format_of host up now kind item c).1 = Some m ->
  Meta.type m = kind_name kind
  /\ Meta.posterShape m = "poster"
  /\ Meta.name m <> ""
  /\ Meta.description m <> ""
  /\ Meta.releaseInfo m = releaseInfo_of host (date_of kind item)
  /\ Meta.language m = getLanguageLabel (or_str (Raw.original_language item) "")
  /\ Meta.background m = image original (Raw.backdrop_path item).
Proof.
  destruct kind; simpl; unfold formatMovie, formatSeries.
  all: destruct (negb _); [done|].
  all: destruct (Raw.id item) as [tmdbId|]; [|done].
  all: destruct (tmdbId =? 0); [done|].
  all: destruct (getIMDBId _ _ _ _ _) as [imdbId es].
  all: destruct (negb _); [done|].
  all: intros [= <-]; simpl.
  all: repeat split; try done; repeat apply or_str_nonempty; done.
Qed.

(** X4.  Every item that [formatMovie] or [formatSeries] yields carries the
    type of its formatter and the poster shape [poster], a name and a
    description that are not empty (the placeholders stand in for absent
    ones), a release note exactly when the record has a date, never an
    empty one, a language label exactly when the record has an original
    language, and a background exactly when the record has a backdrop
    reference. *)
Theorem format_of_fields (host : Host) (up : Upstream) (now : Z) (kind : Kind)
    (item : Raw.t) (c : Cache) (m : Meta.t) :
  (format_of host up now kind item c).1 = Some m ->
  Meta.type m = kind_name kind
  /\ Meta.posterShape m = "poster"
  /\ Meta.name m <> ""
  /\ Meta.description m <> ""
  /\ (Meta.releaseInfo m = None <-> truthy_str (date_of kind item) = false)
  /\ (forall r, Meta.releaseInfo m = Some r -> r <> "")
  /\ (Meta.language m = "" <-> truthy_str (Raw.original_language item) = false)
  /\ (Meta.background m = None <-> truthy_str (Raw.backdrop_path item) = false).
Proof.
  intros (Htype & Hshape & Hname & Hdesc & -> & -> & ->)%format_of_Some.
  split; [done|]. split; [done|]. split; [done|]. split; [done|].
  split; [apply releaseInfo_of_None|]. split; [apply releaseInfo_of_Some|].
  split; [|apply image_None].
  by rewrite getLanguageLabel_empty, or_str_empty.
Qed.

Lemma format_of_fields_witness :
  let m := {| Meta.id := "tt278"; Meta.type := "movie"; Meta.name := "Title";
              Meta.poster := w500 +:+ "/poster.jpg"; Meta.posterShape := "poster";
              Meta.background := None; Meta.description := "No description";
              Meta.releaseInfo := Some "1994-09-23"; Meta.imdbRating := "";
              Meta.language := "English" |} in
  Meta.type m = kind_name Movie
  /\ Meta.posterShape m = "poster"
  /\ Meta.name m <> ""
  /\ Meta.description m <> ""
  /\ (Meta.releaseInfo m = None
      <-> truthy_str (date_of Movie (movie 278 "en" "1994-09-23")) = false)
  /\ (forall r, Meta.releaseInfo m = Some r -> r <> "")
  /\ (Meta.language m = ""
      <-> truthy_str (Raw.original_language (movie 278 "en" "1994-09-23")) = false)
  /\ (Meta.background m = None
      <-> truthy_str (Raw.backdrop_path (movie 278 "en" "1994-09-23")) = false).
Proof.
  apply (format_of_fields host0 upstream_17 0 Movie (movie 278 "en" "1994-09-23") empty_cache).
  vm_compute. reflexivity.
Defined.

(** ** List queries of a request *)

Lemma list_calls_app es1 es2 : list_calls (es1 ++ es2) = list_calls es1 ++ list_calls es2.
Proof. apply omap_app. Qed.

Lemma list_calls_lookups es : Forall lookup_event es -> list_calls es = [].
Proof.
  induction 1 as [|e es He _ IH]; [done|].
  destruct e as [q|w]; [|exact IH].
  unfold list_calls. simpl in *. rewrite He. exact IH.
Qed.

Lemma list_calls_remember req key metas : list_calls (remember_events req key metas) = [].
Proof.
  unfold remember_events. destruct (0 <? List.length metas)%nat; [|done].
  by destruct (skip req =? 0).
Qed.

Section Sends.
Variable host : Host.
Variable up : Upstream.
Variable now : Z.
Variable page : JsNum.

Lemma sends_ret {A} (a : A) : sends page 0 (ret a).
Proof. intros c r c' es [= <- <- <-]. split; [done | constructor]. Qed.

Lemma sends_le {A} (m : M A) n n' : (n <= n')%nat -> sends page n m -> sends page n' m.
Proof. intros Hle Hm c r c' es Hrun. apply Hm in Hrun as [? ?]. split; [lia | done]. Qed.

Lemma sends_bind {A B} (m : M A) (k : A -> M B) n1 n2 :
  sends page n1 m -> (forall a, sends page n2 (k a)) -> sends page (n1 + n2) (bind m k).
Proof.
  intros Hm Hk c r c' es Hrun.
  apply bind_inv in Hrun as [(a & c1 & es1 & es2 & Hm' & Hk' & ->) | [-> Hm']].
  - apply Hm in Hm' as [Hn1 Hp1]. apply Hk in Hk' as [Hn2 Hp2].
    rewrite list_calls_app, length_app. split; [lia|]. by apply Forall_app.
  - apply Hm in Hm' as [Hn1 Hp1]. split; [lia | done].
Qed.

Lemma sends_query call :
  is_list_query call = true -> call_page call = Some page -> sends page 1 (query up call).
Proof.
  intros Hlist Hpage c r c' es. unfold query.
  assert (Hcalls : list_calls [Query call] = [call]).
  { unfold list_calls. simpl. by rewrite Hlist. }
  destruct (list_query up call); intros [= <- <- <-]; rewrite Hcalls;
    (split; [done | by repeat constructor]).
Qed.

Lemma sends_promise_all {X A} (f : X -> Lookup A) xs :
  (forall x c, Forall lookup_event (f x c).2) -> sends page 0 (promise_all now f xs).
Proof.
  intros Hf c r c' es Hrun.
  apply (promise_all_lookups now) in Hrun; [|done].
  rewrite list_calls_lookups by done. split; [done | constructor].
Qed.

Lemma sends_format_all format items :
  (forall x c, Forall lookup_event (format x c).2) ->
  sends page 0 (format_all now format items).
Proof.
  intros Hf. apply (sends_bind _ _ 0 0); [by apply sends_promise_all|].
  intros a. apply sends_ret.
Qed.

Lemma sends_regional_loop langs allMovies :
  sends page (List.length langs) (regional_loop host up now page langs allMovies).
Proof.
  revert allMovies. induction langs as [|lang rest IH]; intros allMovies;
    cbn [regional_loop].
  - apply sends_ret.
  - destruct (25 <=? List.length allMovies)%nat.
    { eapply sends_le; [|apply sends_ret]. lia. }
    apply (sends_bind _ _ 1 (List.length rest)); [by apply sends_query|].
    intros regionalMovies. apply (sends_bind _ _ 0 (List.length rest)); [|intros; apply IH].
    apply sends_promise_all. intros m c. apply hasHindiAudio_events.
Qed.

Lemma sends_search_movies req : sends page 1 (search_movies host up now req page).
Proof.
  unfold search_movies. apply (sends_bind _ _ 1 0); [by apply sends_query|].
  intros movies. apply (sends_bind _ _ 0 0).
  - destruct (String.eqb (id req) "indian_latest").
    + apply (sends_bind _ _ 0 0); [|intros; apply sends_ret].
      apply sends_promise_all. intros m c.
      destruct (includes _ _); [apply hasHindiAudio_events | constructor].
    + destruct (String.eqb (id req) "hollywood_latest"); apply sends_ret.
  - intros movies'. apply sends_format_all, formatMovie_events.
Qed.

Lemma sends_search_series req : sends page 1 (search_series host up now req page).
Proof.
  unfold search_series. apply (sends_bind _ _ 1 0); [by apply sends_query|].
  intros series. apply sends_format_all, formatSeries_events.
Qed.

Lemma sends_indian_latest : sends page 6 (indian_latest host up now page).
Proof.
  unfold indian_latest. apply (sends_bind _ _ 1 5); [by apply sends_query|].
  intros allMovies. apply (sends_bind _ _ 5 0); [apply sends_regional_loop|].
  intros allMovies'. apply sends_format_all, formatMovie_events.
Qed.

Lemma sends_fetch req :
  sends page (if composite req then 6 else 1) (fetch host up now req page).
Proof.
  unfold fetch, composite.
  destruct (String.eqb (searchQuery req) ""); simpl.
  - destruct (String.eqb (type req) "movie"); simpl.
    + destruct (String.eqb (id req) "hollywood_latest") eqn:Hh.
      { apply String.eqb_eq in Hh. rewrite Hh. simpl.
        apply (sends_bind _ _ 1 0); [by apply sends_query|].
        intros movies. apply sends_format_all, formatMovie_events. }
      destruct (String.eqb (id req) "indian_latest"); [apply sends_indian_latest|].
      simpl. destruct (String.eqb (type req) "series" && _).
      * apply (sends_bind _ _ 1 0); [by apply sends_query|].
        intros series. apply sends_format_all, formatSeries_events.
      * eapply sends_le; [|apply sends_ret]. lia.
    + destruct (String.eqb (type req) "series" && _).
      * apply (sends_bind _ _ 1 0); [by apply sends_query|].
        intros series. apply sends_format_all, formatSeries_events.
      * eapply sends_le; [|apply sends_ret]. lia.
  - destruct (String.eqb (type req) "movie"); [apply sends_search_movies|].
    destruct (String.eqb (type req) "series"); [apply sends_search_series|].
    eapply sends_le; [|apply sends_ret]. lia.
Qed.
End Sends.

(** X5.  A request costs at most six list queries (search or discover),
    and at most one unless it is for the composite catalogue without a
    search text; every list query asks for the page that the handler has
    computed from the offset, so the queries of the regional fan-out ask
    for the same page as the Hindi query. *)
Theorem catalogHandler_list_queries (host : Host) (up : Upstream) (now : Z) (req : Request)
    (c : Cache) :
  (List.length (list_calls (catalogHandler host up now req c).2)
   <= (if composite req then 6 else 1))%nat
  /\ Forall (fun q => call_page q = Some (page now req c))
       (list_calls (catalogHandler host up now req c).2).
Proof.
  destruct (catalogHandler_inv host up now req c)
    as [(v & _ & _ & Hrun) | [(_ & c' & es & Hfetch & Hrun) | (_ & l & c1 & es1 & Hfetch & Hrun)]];
    rewrite Hrun; simpl.
  - split; [lia | constructor].
  - by apply (sends_fetch host up now) in Hfetch.
  - rewrite list_calls_app, list_calls_remember, app_nil_r.
    by apply (sends_fetch host up now) in Hfetch.
Qed.

(** ** Requests that no branch serves *)

Lemma fetch_unserved host up now req page c :
  served req = false -> fetch host up now req page c = (Some [], c, []).
Proof.
  unfold served, fetch. destruct (negb _).
  - intros [-> ->]%orb_false_elim. done.
  - intros [[-> ->]%orb_false_elim ->]%orb_false_elim. done.
Qed.

(** X6.  A request that is neither a search for movies or series nor one
    of the three catalogues under its own type (the series catalogue asked
    for under the type [movie], say) gets the empty list on a miss: no
    upstream call is sent and the cache stays as it is. *)
Theorem catalogHandler_unserved (host : Host) (up : Upstream) (now : Z) (req : Request)
    (c : Cache) :
  served req = false ->
  miss now req c ->
  catalogHandler host up now req c = (respond (Items []), c, []).
Proof.
  intros Hno Hmiss. unfold catalogHandler. unfold miss in Hmiss. rewrite Hmiss.
  unfold try_body, bind. rewrite fetch_unserved by done. reflexivity.
Qed.

Lemma catalogHandler_unserved_witness :
  catalogHandler host0 upstream_17 0 request_mismatched empty_cache
  = (respond (Items []), empty_cache, []).
Proof.
  apply (catalogHandler_unserved host0 upstream_17 0 request_mismatched empty_cache);
    reflexivity.
Defined.

(** ** What a fetched list holds *)

Lemma format_all_run now format items c metas c' es :
  format_all now format items c = (Some metas, c', es) ->
  metas = filter_Boolean ((fun x => (format x c).1) <$> items).
Proof.
  intros Hrun. pose proof (format_all_result now format items c) as H.
  rewrite Hrun in H. simpl in H. congruence.
Qed.

Lemma format_all_elem_of now format items c metas c' es m :
  format_all now format items c = (Some metas, c', es) ->
  m ∈ metas -> exists item, item ∈ items /\ (format item c).1 = Some m.
Proof.
  intros -> %format_all_run Hm. apply filter_Boolean_elem_of in Hm.
  apply list_elem_of_fmap in Hm as (item & Hitem & Hin). by exists item.
Qed.

Lemma filter_Boolean_length {A} (l : list (option A)) :
  (List.length (filter_Boolean l) <= List.length l)%nat.
Proof.
  unfold filter_Boolean. induction l as [|[x|] l IH]; csimpl; lia.
Qed.

Lemma format_all_length now format items c metas c' es :
  format_all now format items c = (Some metas, c', es) ->
  (List.length metas <= List.length items)%nat.
Proof.
  intros -> %format_all_run.
  etrans; [apply filter_Boolean_length|]. by rewrite length_fmap.
Qed.

Lemma promise_all_run {X A} now (f : X -> Lookup A) xs c r c' es :
  promise_all now f xs c = (Some r, c', es) -> r = (fun x => (f x c).1) <$> xs.
Proof.
  intros [= <- _ _]. induction xs as [|x xs IH]; [done|]. simpl. by rewrite IH.
Qed.

Lemma keep_checked_elem_of {A} (g : A -> bool) (xs : list A) x :
  x ∈ keep_checked xs (g <$> xs) -> x ∈ xs /\ g x = true.
Proof.
  induction xs as [|y xs IH]; simpl; [by intros ?%elem_of_nil|].
  destruct (g y) eqn:Hy.
  - intros [->|Hin]%elem_of_cons; [split; [by left | done]|].
    apply IH in Hin as [? ?]. split; [by right | done].
  - intros Hin. apply IH in Hin as [? ?]. split; [by right | done].
Qed.

Section Fetched.
Variable host : Host.
Variable up : Upstream.
Variable now : Z.

(** The items of a fetched list have the type of the request. *)
Lemma fetch_type req page c metas c' es :
  fetch host up now req page c = (Some metas, c', es) ->
  Forall (fun m => Meta.type m = type req) metas.
Proof.
  assert (Hfmt : forall kind items c0 c1 es1,
            type req = kind_name kind ->
            format_all now (format_of host up now kind) items c0 = (Some metas, c1, es1) ->
            Forall (fun m => Meta.type m = type req) metas).
  { intros kind items c0 c1 es1 Hkind Hrun. apply Forall_forall. intros m Hm.
    destruct (format_all_elem_of _ _ _ _ _ _ _ m Hrun Hm) as (item & _ & Hitem).
    apply format_of_Some in Hitem as (-> & _). done. }
  unfold fetch. destruct (negb _).
  - destruct (String.eqb_spec (type req) "movie") as [Hmovie|_].
    + unfold search_movies.
      intros (movies & c1 & es1 & es2 & _ & Hrest & _)%bind_Some_inv.
      apply bind_Some_inv in Hrest as (movies' & c2 & es3 & es4 & _ & Hrest & _).
      by apply (Hfmt Movie) in Hrest.
    + destruct (String.eqb_spec (type req) "series") as [Hseries|_];
        [|intros [= <- _ _]; constructor].
      unfold search_series.
      intros (series & c1 & es1 & es2 & _ & Hrest & _)%bind_Some_inv.
      by apply (Hfmt Series) in Hrest.
  - destruct (String.eqb_spec (type req) "movie") as [Hmovie|_]; simpl.
    + destruct (String.eqb (id req) "hollywood_latest").
      { intros (movies & c1 & es1 & es2 & _ & Hrest & _)%bind_Some_inv.
        by apply (Hfmt Movie) in Hrest. }
      destruct (String.eqb (id req) "indian_latest").
      { unfold indian_latest.
        intros (movies & c1 & es1 & es2 & _ & Hrest & _)%bind_Some_inv.
        apply bind_Some_inv in Hrest as (movies' & c2 & es3 & es4 & _ & Hrest & _).
        by apply (Hfmt Movie) in Hrest. }
      rewrite Hmovie. simpl. intros [= <- _ _]. constructor.
    + destruct (String.eqb_spec (type req) "series") as [Hseries|_]; simpl;
        [|intros [= <- _ _]; constructor].
      destruct (String.eqb (id req) "hollywood_series_latest");
        [|intros [= <- _ _]; constructor].
      intros (series & c1 & es1 & es2 & _ & Hrest & _)%bind_Some_inv.
      by apply (Hfmt Series) in Hrest.
Qed.

(** The composite catalogue formats at most 20 records. *)
Lemma indian_latest_length page c metas c' es :
  indian_latest host up now page c = (Some metas, c', es) ->
  (List.length metas <= 20)%nat.
Proof.
  unfold indian_latest.
  intros (movies & c1 & es1 & es2 & _ & Hrest & _)%bind_Some_inv.
  apply bind_Some_inv in Hrest as (movies' & c2 & es3 & es4 & _ & Hrest & _).
  apply format_all_length in Hrest. etrans; [exact Hrest|].
  unfold slice0. rewrite length_take. lia.
Qed.

(** The labels of a search among the English-language items. *)
Lemma search_english kind items c metas c' es :
  format_all now (format_of host up now kind)
    (filter (fun m => is_str (Raw.original_language m) "en") items) c = (Some metas, c', es) ->
  Forall (fun m => Meta.language m = "English") metas.
Proof.
  intros Hrun. apply Forall_forall. intros m Hm.
  destruct (format_all_elem_of _ _ _ _ _ _ _ m Hrun Hm) as (item & Hin & Hitem).
  apply list_elem_of_filter in Hin as [Hen _]. apply Is_true_true, is_str_spec in Hen.
  apply format_of_Some in Hitem as (_ & _ & _ & _ & _ & -> & _).
  by rewrite Hen.
Qed.
End Fetched.

(** A miss is answered with a list: the empty one, or the one fetched. *)
Lemma catalogHandler_miss host up now req c :
  miss now req c ->
  metas (catalogHandler host up now req c).1.1
  = Items (items (catalogHandler host up now req c).1.1)
  /\ (items (catalogHandler host up now req c).1.1 = []
      \/ exists c1 es1,
           fetch host up now req (page now req c) c
           = (Some (items (catalogHandler host up now req c).1.1), c1, es1)).
Proof.
  intros Hmiss.
  destruct (catalogHandler_inv host up now req c)
    as [(v & Hlive & Hhit & Hrun) | [(_ & c' & es & _ & Hrun) | (_ & l & c1 & es1 & Hfetch & Hrun)]];
    rewrite Hrun; simpl.
  - unfold miss in Hmiss. rewrite Hlive in Hmiss. congruence.
  - split; [done | by left].
  - split; [done|]. right. by exists c1, es1.
Qed.

(** X7.  On a miss the handler answers with a list, and every item of it
    has the type of the request: a request under the type [movie] is
    never given a series, nor the reverse. *)
Theorem catalogHandler_items_type (host : Host) (up : Upstream) (now : Z) (req : Request)
    (c : Cache) :
  miss now req c ->
  metas (catalogHandler host up now req c).1.1
  = Items (items (catalogHandler host up now req c).1.1)
  /\ Forall (fun m => Meta.type m = type req) (items (catalogHandler host up now req c).1.1).
Proof.
  intros [Hlist [Hnil | (c1 & es1 & Hfetch)]]%(catalogHandler_miss host up).
  - split; [done|]. rewrite Hnil. constructor.
  - split; [done|]. by apply fetch_type in Hfetch.
Qed.

Lemma catalogHandler_items_type_witness :
  metas (catalogHandler host0 upstream_mixed 0 (request_search "hollywood_latest" "x")
           empty_cache).1.1
  = Items (items (catalogHandler host0 upstream_mixed 0 (request_search "hollywood_latest" "x")
                    empty_cache).1.1)
  /\ Forall (fun m => Meta.type m = "movie")
       (items (catalogHandler host0 upstream_mixed 0 (request_search "hollywood_latest" "x")
                 empty_cache).1.1).
Proof.
  apply (catalogHandler_items_type host0 upstream_mixed 0
           (request_search "hollywood_latest" "x") empty_cache).
  reflexivity.
Defined.

(** X8.  A search in the catalogue [hollywood_latest] under the type
    [movie], or in [hollywood_series_latest] under the type [series],
    yields on a miss only items whose original language is English,
    whatever the upstream search has found. *)
Theorem search_hollywood_english (host : Host) (up : Upstream) (now : Z) (req : Request)
    (c : Cache) :
  miss now req c ->
  searchQuery req <> "" ->
  (type req = "movie" /\ id req = "hollywood_latest")
  \/ (type req = "series" /\ id req = "hollywood_series_latest") ->
  Forall (fun m => Meta.language m = "English") (items (catalogHandler host up now req c).1.1).
Proof.
  intros [_ [-> | (c1 & es1 & Hfetch)]]%(catalogHandler_miss host up) Hq Hcat;
    [constructor|].
  revert Hfetch. unfold fetch.
  destruct (String.eqb_spec (searchQuery req) "") as [|_]; [done|]. simpl.
  destruct Hcat as [[-> Hid] | [-> Hid]]; simpl.
  - unfold search_movies. rewrite Hid. simpl.
    intros (movies & c2 & es2 & es3 & _ & Hrest & _)%bind_Some_inv.
    apply bind_Some_inv in Hrest as (movies' & c3 & es4 & es5 & [= <- <- _] & Hrest & _).
    by apply (search_english host up now Movie) in Hrest.
  - unfold search_series. rewrite Hid. simpl.
    intros (series & c2 & es2 & es3 & _ & Hrest & _)%bind_Some_inv.
    by apply (search_english host up now Series) in Hrest.
Qed.

Lemma search_hollywood_english_witness :
  Forall (fun m => Meta.language m = "English")
    (items (catalogHandler host0 upstream_mixed 0 (request_search "hollywood_latest" "x")
              empty_cache).1.1).
Proof.
  apply (search_hollywood_english host0 upstream_mixed 0
           (request_search "hollywood_latest" "x") empty_cache).
  - reflexivity.
  - simpl. discriminate.
  - left. split; reflexivity.
Defined.

Lemma includes_indian_label lang :
  includes indianLangs lang = true ->
  getLanguageLabel (or_str lang "") ∈ indian_labels.
Proof.
  destruct lang as [l|]; [|done]. unfold includes, indianLangs. cbn [existsb].
  repeat match goal with
         | |- context [String.eqb l ?s] =>
             destruct (String.eqb_spec l s) as [->|_];
               [intros _; vm_compute; repeat (first [by left | right]) |]
         end.
  done.
Qed.

(** X9.  A movie search in the catalogue [indian_latest] yields on a miss
    only items in one of the eight Indian languages of line 235: every
    item carries the label of one of them, whatever the upstream search
    has found and whatever the classifier answers. *)
Theorem search_indian_languages (host : Host) (up : Upstream) (now : Z) (req : Request)
    (c : Cache) :
  miss now req c ->
  searchQuery req <> "" ->
  type req = "movie" ->
  id req = "indian_latest" ->
  Forall (fun m => Meta.language m ∈ indian_labels)
    (items (catalogHandler host up now req c).1.1).
Proof.
  intros [_ [-> | (c1 & es1 & Hfetch)]]%(catalogHandler_miss host up) Hq Htype Hid;
    [constructor|].
  revert Hfetch. unfold fetch.
  destruct (String.eqb_spec (searchQuery req) "") as [|_]; [done|]. simpl.
  rewrite Htype. simpl. unfold search_movies. rewrite Hid. simpl.
  intros (movies & c2 & es2 & es3 & _ & Hrest & _)%bind_Some_inv.
  apply bind_Some_inv in Hrest as (movies' & c3 & es4 & es5 & Hchecks & Hrest & _).
  apply bind_Some_inv in Hchecks as (checks & c4 & es6 & es7 & Hall & [= <- _ _] & _).
  apply promise_all_run in Hall as ->.
  apply Forall_forall. intros m Hm.
  destruct (format_all_elem_of _ _ _ _ _ _ _ m Hrest Hm) as (item & Hin & Hitem).
  apply keep_checked_elem_of in Hin as [_ Hkept].
  apply (format_of_Some host up now Movie) in Hitem as (_ & _ & _ & _ & _ & -> & _).
  apply includes_indian_label.
  by destruct (includes indianLangs (Raw.original_language item)).
Qed.

Lemma search_indian_languages_witness :
  Forall (fun m => Meta.language m ∈ indian_labels)
    (items (catalogHandler host0 upstream_mixed 0 (request_search "indian_latest" "x")
              empty_cache).1.1).
Proof.
  apply (search_indian_languages host0 upstream_mixed 0
           (request_search "indian_latest" "x") empty_cache).
  - reflexivity.
  - simpl. discriminate.
  - reflexivity.
  - reflexivity.
Defined.

(** X10.  The composite catalogue offers at most 20 items on a miss,
    however many the language queries have returned. *)
Theorem indian_latest_at_most_20 (host : Host) (up : Upstream) (now : Z) (req : Request)
    (c : Cache) :
  miss now req c ->
  composite req = true ->
  (List.length (items (catalogHandler host up now req c).1.1) <= 20)%nat.
Proof.
  intros [_ [-> | (c1 & es1 & Hfetch)]]%(catalogHandler_miss host up) Hcomp;
    [simpl; lia|].
  revert Hfetch. unfold composite in Hcomp.
  apply andb_prop in Hcomp as [[Hq Htype]%andb_prop Hid].
  apply String.eqb_eq in Hid.
  unfold fetch. rewrite Hq, Htype, Hid. simpl. apply indian_latest_length.
Qed.

Lemma indian_latest_at_most_20_witness :
  (List.length (items (catalogHandler host0 upstream_regional 0 (request_indian 0)
                         empty_cache).1.1) <= 20)%nat.
Proof.
  apply (indian_latest_at_most_20 host0 upstream_regional 0 (request_indian 0) empty_cache);
    reflexivity.
Defined.

(** ** The selection of the composite catalogue (lines 325-335) *)

(** X11.  What the composite catalogue hands to the formatter: of the
    gathered records, one per source identifier, the 20 with the latest
    release dates.  The selection holds at most 20 records, all of them
    gathered ones, with distinct identifiers and in descending order of
    release date; a record that was left out although it is the first
    with its identifier is not newer than any selected one; and when the
    gathered records have at most 20 identifiers, every identifier is
    selected. *)
Theorem composite_selection (allMovies : list Raw.t) :
  (List.length (slice0 20 (sort release_cmp (dedup allMovies)))
   = Nat.min 20 (List.length (dedup allMovies)))
  /\ NoDup (Raw.id <$> slice0 20 (sort release_cmp (dedup allMovies)))
  /\ StronglySorted (before release_cmp) (slice0 20 (sort release_cmp (dedup allMovies)))
  /\ (forall m, m ∈ slice0 20 (sort release_cmp (dedup allMovies)) -> m ∈ allMovies)
  /\ (forall m m',
        m ∈ slice0 20 (sort release_cmp (dedup allMovies)) ->
        m' ∈ dedup allMovies ->
        m' ∉ slice0 20 (sort release_cmp (dedup allMovies)) ->
        String.leb (release_key m') (release_key m) = true)
  /\ ((List.length (dedup allMovies) <= 20)%nat ->
      forall i, i ∈ Raw.id <$> allMovies ->
        i ∈ Raw.id <$> slice0 20 (sort release_cmp (dedup allMovies))).
Proof.
  unfold slice0.
  pose proof (sort_perm release_cmp (dedup allMovies)) as Hperm.
  pose proof (sort_sorted release_cmp release_cmp_total release_cmp_trans (dedup allMovies))
    as Hsorted.
  split; [|split; [|split; [|split; [|split]]]].
  - by rewrite length_take, Hperm.
  - apply (sublist_NoDup _ (Raw.id <$> sort release_cmp (dedup allMovies))).
    + rewrite Hperm. apply dedup_NoDup.
    + apply fmap_sublist, sublist_take.
  - rewrite <- (take_drop 20 (sort release_cmp (dedup allMovies))) in Hsorted.
    by apply StronglySorted_app_1_l in Hsorted.
  - intros m Hm%subseteq_take. rewrite Hperm in Hm.
    assert (Hid : Raw.id m ∈ Raw.id <$> dedup allMovies) by (by apply list_elem_of_fmap_2).
    unfold dedup in Hm. rewrite dedup_loop_fresh in Hm. simpl in Hm.
    clear -Hm. revert Hm. generalize (∅ : gset (option Z)).
    induction allMovies as [|x l IH]; intros seen; simpl; [done|].
    case_decide.
    + intros Hm. apply elem_of_cons. right. by apply (IH seen).
    + intros [->|Hm]%elem_of_cons; apply elem_of_cons; [by left|].
      right. by apply (IH _ Hm).
  - intros m m' Hm Hm' Hout.
    rewrite <- Hperm, <- (take_drop 20 (sort release_cmp (dedup allMovies))) in Hm'.
    apply elem_of_app in Hm' as [Hm'|Hm']; [done|].
    rewrite <- (take_drop 20 (sort release_cmp (dedup allMovies))) in Hsorted.
    pose proof (StronglySorted_app_1_elem_of _ _ _ _ _ Hsorted Hm Hm') as Hb.
    unfold before, release_cmp, localeCompare in Hb. unfold String.leb, release_key.
    by destruct (String.compare (or_str (Raw.release_date m') "")
                   (or_str (Raw.release_date m) "")).
  - intros Hlen i Hi. rewrite take_ge by (by rewrite Hperm).
    rewrite Hperm. by apply dedup_ids.
Qed.

(** ** Round trip through the result cache *)

Lemma keyed_pageSize now req c : keyed c -> exists p, p <> 0 /\ pageSize now req c = Num p.
Proof.
  intros Hc. unfold pageSize, live.
  destruct (store c !! pageSizeKey req) as [e|] eqn:He; [|by exists 20].
  destruct (now <=? expires e); [|by exists 20].
  apply Hc in He. simpl in He. destruct He as (n & ->).
  destruct (Z.eqb_spec n 0); [by exists 20 | by exists n].
Qed.

Lemma pageSizeKey_eq req req' :
  id req' = id req -> searchQuery req' = searchQuery req ->
  pageSizeKeyBase req' = pageSizeKeyBase req /\ pageSizeKey req' = pageSizeKey req.
Proof. unfold pageSizeKey, pageSizeKeyBase. by intros -> ->. Qed.

(** X12.  The first page is served from the cache.  In a process that has
    served requests for the catalogues of the manifest, let a request at
    the offset 0 fetch a list that is not empty.  For the 1800 seconds
    that follow, a request for the same catalogue and search text at an
    offset below the length of the list, whatever its type, is given the
    same list: no upstream call is sent and the cache stays as it is. *)
Theorem first_page_served_from_cache (host host' : Host) (up up' : Upstream) (now now' : Z)
    (req req' : Request) (c : Cache) :
  reachable c ->
  manifest_id (id req) ->
  miss now req c ->
  skip req = 0 ->
  items (catalogHandler host up now req c).1.1 <> [] ->
  id req' = id req ->
  searchQuery req' = searchQuery req ->
  0 <= skip req' < Z.of_nat (List.length (items (catalogHandler host up now req c).1.1)) ->
  now <= now' <= now + 1800 * 1000 ->
  catalogHandler host' up' now' req' (catalogHandler host up now req c).1.2
  = (respond (Items (items (catalogHandler host up now req c).1.1)),
     (catalogHandler host up now req c).1.2, []).
Proof.
  intros Hc%reachable_keyed Hid Hmiss Hskip Hne Hid' Hq' Hskip' Hnow'.
  destruct (pageSizeKey_eq req req' Hid' Hq') as [Hbase Hps].
  assert (Hkey : cacheKey now req c = pageSizeKeyBase req +:+ "_p" +:+ render_num (Int 1)).
  { unfold cacheKey, page. destruct (keyed_pageSize now req c Hc) as (p & Hp & ->).
    rewrite upstreamPage_Num, Hskip by done. reflexivity. }
  assert (Hdiff : pageSizeKey req <> cacheKey now req c).
  { intros Heq. pose proof (manifest_cacheKey now req c Hid) as H.
    rewrite <- Heq in H. discriminate H. }
  revert Hne Hskip'.
  destruct (catalogHandler_inv host up now req c)
    as [(v & Hlive & Hhit & Hrun) | [(_ & c' & es & _ & Hrun) | (_ & l & c1 & es1 & Hfetch & Hrun)]];
    rewrite Hrun; simpl.
  - unfold miss in Hmiss. rewrite Hlive in Hmiss. congruence.
  - done.
  - unfold items. simpl. intros Hne Hskip'.
    apply (fetches_fetch host up now) in Hfetch as (-> & Hev & _).
    unfold remember_events.
    destruct (0 <? List.length l)%nat eqn:Hlen; [|by destruct l].
    rewrite Hskip. simpl.
    rewrite fetch_events_store by done.
    set (c2 := Build_Cache _ _ _).
    assert (Hstore : store c2
              = <[pageSizeKey req := mk_entry now (Num (Z.of_nat (List.length l))) (Some 86400)]>
                  (<[cacheKey now req c := mk_entry now (Items l) None]> (store c)))
      by done.
    assert (Hpage : page now' req' c2 = Int 1).
    { unfold page. rewrite (pageSize_learned _ _ _ (Z.of_nat (List.length l))).
      - rewrite upstreamPage_Num by (destruct l; [done | simpl; lia]).
        rewrite Z.div_small by lia. reflexivity.
      - destruct l; [done | simpl; lia].
      - rewrite Hps, Hstore, lookup_insert_eq. apply live_mk_entry. lia. }
    assert (Hkey' : cacheKey now' req' c2 = cacheKey now req c).
    { unfold cacheKey at 1. by rewrite Hpage, Hbase, Hkey. }
    unfold catalogHandler. rewrite Hkey', Hstore.
    rewrite lookup_insert_ne, lookup_insert_eq by done.
    unfold live, mk_entry. simpl.
    destruct (Z.leb_spec now' (now + stdTTL * 1000)) as [_|Hlate]; [done|].
    unfold stdTTL in Hlate. lia.
Qed.

Lemma first_page_served_from_cache_witness :
  catalogHandler host0 upstream_without_ids 1800000
    {| type := "series"; id := "indian_latest"; extra_search := None; skip := 16 |}
    (catalogHandler host0 upstream_17 0 (request_indian 0) empty_cache).1.2
  = (respond (Items (items (catalogHandler host0 upstream_17 0 (request_indian 0)
                              empty_cache).1.1)),
     (catalogHandler host0 upstream_17 0 (request_indian 0) empty_cache).1.2, []).
Proof.
  apply (first_page_served_from_cache host0 host0 upstream_17 upstream_without_ids 0 1800000
           (request_indian 0)
           {| type := "series"; id := "indian_latest"; extra_search := None; skip := 16 |}
           empty_cache).
  - apply reachable_empty.
  - right. left. reflexivity.
  - reflexivity.
  - reflexivity.
  - intros H. vm_compute in H. discriminate H.
  - reflexivity.
  - reflexivity.
  - split; [simpl; lia|]. vm_compute. reflexivity.
  - lia.
Defined.

(** ** The result cache of a process that serves the manifest *)

Lemma well_kept_insert c key v now ttl :
  well_kept c ->
  (if starts_ps key then exists n, v = Num n /\ 0 < n
   else exists l, v = Items l /\ l <> [] /\ Forall presentable l) ->
  well_kept (cache_set now (WStore key v ttl) c).
Proof.
  intros Hc Hv key' e. simpl. destruct (decide (key = key')) as [<-|Hne].
  - rewrite lookup_insert_eq. by intros [= <-].
  - rewrite lookup_insert_ne by done. apply Hc.
Qed.

Lemma catalogHandler_well_kept host up now req c :
  well_kept c -> manifest_id (id req) -> well_kept (catalogHandler host up now req c).1.2.
Proof.
  intros Hc Hid.
  assert (Hfetch : forall r c1 es,
            fetch host up now req (page now req c) c = (r, c1, es) -> well_kept c1).
  { intros r c1 es (-> & Hev & _)%fetches_fetch. intros key e.
    rewrite fetch_events_store by done. apply Hc. }
  destruct (catalogHandler_inv host up now req c)
    as [(v & _ & _ & Hrun) | [(_ & c' & es & Hf & Hrun) | (_ & l & c1 & es1 & Hf & Hrun)]];
    rewrite Hrun; simpl; [done | by eapply Hfetch |].
  pose proof (fetch_presentable _ _ _ _ _ _ _ _ _ Hf) as Hpres.
  apply Hfetch in Hf. unfold remember_events.
  destruct (0 <? List.length l)%nat eqn:Hlen; [|done].
  assert (Hlist : well_kept (cache_set now (WStore (cacheKey now req c) (Items l) None) c1)).
  { apply well_kept_insert; [done|]. rewrite manifest_cacheKey by done.
    exists l. split; [done|]. split; [by destruct l | done]. }
  destruct (skip req =? 0); [|done].
  apply (well_kept_insert _ (pageSizeKey req)); [done|]. simpl.
  eexists. split; [done|]. destruct l; [done | simpl; lia].
Qed.

Lemma reachable_well_kept c : reachable c -> well_kept c.
Proof.
  induction 1 as [|host up now req c _ IH Hid].
  - intros key e. cbn [store empty_cache]. by rewrite lookup_empty.
  - by apply catalogHandler_well_kept.
Qed.

Lemma well_kept_pageSize now req c :
  well_kept c -> exists p, 0 < p /\ pageSize now req c = Num p.
Proof.
  intros Hc. unfold pageSize, live.
  destruct (store c !! pageSizeKey req) as [e|] eqn:He; [|by exists 20].
  destruct (now <=? expires e); [|by exists 20].
  apply Hc in He. simpl in He. destruct He as (n & -> & Hn).
  destruct (Z.eqb_spec n 0); [lia | by exists n].
Qed.

(** X13.  In a process that has served requests for the catalogues of the
    manifest, every answer to such a request, from the cache or fetched,
    is a list of items that have a canonical identifier and a poster, and
    an answer from the cache is not empty. *)
Theorem reachable_response_presentable (host : Host) (up : Upstream) (now : Z) (req : Request)
    (c : Cache) :
  reachable c ->
  manifest_id (id req) ->
  metas (catalogHandler host up now req c).1.1
  = Items (items (catalogHandler host up now req c).1.1)
  /\ Forall presentable (items (catalogHandler host up now req c).1.1)
  /\ (~ miss now req c -> items (catalogHandler host up now req c).1.1 <> []).
Proof.
  intros Hc%reachable_well_kept Hid.
  destruct (catalogHandler_inv host up now req c)
    as [(v & Hlive & _ & Hrun) | [(Hmiss & c' & es & Hf & Hrun)
                                 | (Hmiss & l & c1 & es1 & Hf & Hrun)]];
    rewrite Hrun; unfold items; simpl.
  - unfold live in Hlive.
    destruct (store c !! cacheKey now req c) as [e|] eqn:He; [|done].
    destruct (now <=? expires e); [|done]. injection Hlive as <-.
    apply Hc in He. rewrite manifest_cacheKey in He by done.
    destruct He as (l & -> & Hne & Hpres). done.
  - split; [done|]. split; [constructor | done].
  - split; [done|]. split; [by apply fetch_presentable in Hf | done].
Qed.

Lemma reachable_response_presentable_witness :
  metas (catalogHandler host0 upstream_without_ids 60000 (request_indian 5)
           (catalogHandler host0 upstream_17 0 (request_indian 0) empty_cache).1.2).1.1
  = Items (items (catalogHandler host0 upstream_without_ids 60000 (request_indian 5)
                    (catalogHandler host0 upstream_17 0 (request_indian 0) empty_cache).1.2).1.1)
  /\ Forall presentable
       (items (catalogHandler host0 upstream_without_ids 60000 (request_indian 5)
                 (catalogHandler host0 upstream_17 0 (request_indian 0) empty_cache).1.2).1.1)
  /\ (~ miss 60000 (request_indian 5)
          (catalogHandler host0 upstream_17 0 (request_indian 0) empty_cache).1.2 ->
      items (catalogHandler host0 upstream_without_ids 60000 (request_indian 5)
               (catalogHandler host0 upstream_17 0 (request_indian 0) empty_cache).1.2).1.1
      <> []).
Proof.
  apply (reachable_response_presentable host0 upstream_without_ids 60000 (request_indian 5)
           (catalogHandler host0 upstream_17 0 (request_indian 0) empty_cache).1.2).
  - apply reachable_step; [apply reachable_empty|]. right. left. reflexivity.
  - right. left. reflexivity.
Defined.

(** X14.  In a process that has served requests for the catalogues of the
    manifest, the page size in force for any request is a positive
    integer [p], so that line 209 never divides by zero or by a list: for
    an offset that is a safe integer the page is the integer
    [floor(skip / p) + 1].  The handler sets no lower bound: the page is
    at least 1 exactly when the offset is not negative, and a negative
    offset gives the page 0 or a negative page. *)
Theorem reachable_page_integer (now : Z) (req : Request) (c : Cache) :
  reachable c ->
  - 2 ^ 53 < skip req < 2 ^ 53 ->
  exists p,
    pageSize now req c = Num p
    /\ 0 < p
    /\ page now req c = Int (skip req / p + 1)
    /\ (1 <= skip req / p + 1 <-> 0 <= skip req).
Proof.
  intros Hc%reachable_well_kept _.
  destruct (well_kept_pageSize now req c Hc) as (p & Hp & Hsize).
  exists p. split; [done|]. split; [done|]. split.
  - unfold page. rewrite Hsize. apply upstreamPage_Num. lia.
  - split; intros H.
    + destruct (Z.lt_ge_cases (skip req) 0) as [Hneg|]; [|done].
      pose proof (Z.div_lt_upper_bound (skip req) p 0 Hp). lia.
    + pose proof (Z.div_pos (skip req) p H Hp). lia.
Qed.

Lemma reachable_page_integer_witness :
  exists p,
    pageSize 60000 (request_indian (-3))
      (catalogHandler host0 upstream_17 0 (request_indian 0) empty_cache).1.2 = Num p
    /\ 0 < p
    /\ page 60000 (request_indian (-3))
         (catalogHandler host0 upstream_17 0 (request_indian 0) empty_cache).1.2
       = Int (skip (request_indian (-3)) / p + 1)
    /\ (1 <= skip (request_indian (-3)) / p + 1 <-> 0 <= skip (request_indian (-3))).
Proof.
  apply (reachable_page_integer 60000 (request_indian (-3))
           (catalogHandler host0 upstream_17 0 (request_indian 0) empty_cache).1.2).
  - apply reachable_step; [apply reachable_empty|]. right. left. reflexivity.
  - simpl. lia.
Defined.

(** X15.  In a process that has served requests for the catalogues of the
    manifest, two requests for the same catalogue and search text, at
    offsets that are safe integers, are computed with the same page size
    [p], the one in force for their signature, and they have the same
    result key exactly when their offsets fall into the same page of
    that size: the offsets inside a page share one entry, and the entries
    of two pages never overwrite each other. *)
Theorem cacheKey_same_page (now : Z) (req req' : Request) (c : Cache) :
  reachable c ->
  id req' = id req ->
  searchQuery req' = searchQuery req ->
  - 2 ^ 53 < skip req < 2 ^ 53 ->
  - 2 ^ 53 < skip req' < 2 ^ 53 ->
  exists p,
    pageSize now req c = Num p
    /\ pageSize now req' c = Num p
    /\ 0 < p
    /\ page now req c = Int (skip req / p + 1)
    /\ page now req' c = Int (skip req' / p + 1)
    /\ (cacheKey now req' c = cacheKey now req c <-> skip req' / p = skip req / p).
Proof.
  intros Hc%reachable_well_kept Hid Hq _ _.
  destruct (pageSizeKey_eq req req' Hid Hq) as [Hbase Hps].
  destruct (well_kept_pageSize now req c Hc) as (p & Hp & Hsize).
  assert (Hsize' : pageSize now req' c = Num p).
  { unfold pageSize in *. by rewrite Hps. }
  exists p. split; [done|]. split; [done|]. split; [done|].
  unfold cacheKey, page. rewrite Hsize, Hsize', Hbase, !upstreamPage_Num by lia.
  split; [done|]. split; [done|]. simpl. split.
  - intros H. apply String.app_inj in H. apply (String.app_inj "_p") in H.
    apply pretty_Z_inj in H. lia.
  - by intros ->.
Qed.

Lemma cacheKey_same_page_witness :
  exists p,
    pageSize 60000 (request_indian 0)
      (catalogHandler host0 upstream_17 0 (request_indian 0) empty_cache).1.2 = Num p
    /\ pageSize 60000 (request_indian 16)
         (catalogHandler host0 upstream_17 0 (request_indian 0) empty_cache).1.2 = Num p
    /\ 0 < p
    /\ page 60000 (request_indian 0)
         (catalogHandler host0 upstream_17 0 (request_indian 0) empty_cache).1.2
       = Int (skip (request_indian 0) / p + 1)
    /\ page 60000 (request_indian 16)
         (catalogHandler host0 upstream_17 0 (request_indian 0) empty_cache).1.2
       = Int (skip (request_indian 16) / p + 1)
    /\ (cacheKey 60000 (request_indian 16)
          (catalogHandler host0 upstream_17 0 (request_indian 0) empty_cache).1.2
        = cacheKey 60000 (request_indian 0)
            (catalogHandler host0 upstream_17 0 (request_indian 0) empty_cache).1.2
        <-> skip (request_indian 16) / p = skip (request_indian 0) / p).
Proof.
  apply (cacheKey_same_page 60000 (request_indian 0) (request_indian 16)
           (catalogHandler host0 upstream_17 0 (request_indian 0) empty_cache).1.2).
  - apply reachable_step; [apply reachable_empty|]. right. left. reflexivity.
  - reflexivity.
  - reflexivity.
  - simpl. lia.
  - simpl. lia.
Defined.

(** ** What the regional fan-out adds *)

Lemma query_run up call c results c' es :
  query up call c = (Some results, c', es) ->
  c' = c /\ exists answer, list_query up call = Some answer /\ results = default [] answer.
Proof.
  unfold query. destruct (list_query up call) as [answer|]; [|done].
  intros [= <- <- _]. split; [done|]. by exists answer.
Qed.

Lemma hasHindiAudio_true up now movieId c :
  (hasHindiAudio up now movieId c).1 = true ->
  live now (hindi c !! movieId) = Some true \/ qualifies up movieId.
Proof.
  unfold hasHindiAudio, qualifies, original_is_hindi, has_hindi_translation,
    has_india_release.
  destruct (live now (hindi c !! movieId)) as [cached|]; [simpl; intros ->; by left|].
  destruct (movie_detail up movieId) as [data|]; [|done]. intros Htrue. right.
  exists data. split; [done|].
  destruct (is_str (detail_original_language data) "hi") eqn:Hlang.
  { left. by apply is_str_spec. }
  destruct (existsb _ (default [] (detail_translations data))) eqn:Htrans.
  { right; left. apply existsb_elem_of in Htrans as (t & Hin & Ht).
    exists t. split; [done|]. by apply is_str_spec. }
  destruct (find _ (default [] (detail_release_dates data))) as [r|] eqn:Hrel; [|done].
  right; right. apply find_some in Hrel as [Hin Hr]. exists r.
  split; [by apply list_elem_of_In | by apply is_str_spec].
Qed.

Lemma hasHindiAudio_classifier_events up now movieId c :
  Forall (classifier_event up) (hasHindiAudio up now movieId c).2.
Proof.
  pose proof (hasHindiAudio_true up now movieId c) as Htrue. revert Htrue.
  unfold hasHindiAudio.
  destruct (live now (hindi c !! movieId)) as [cached|] eqn:Hlive; [constructor|].
  destruct (movie_detail up movieId) as [data|]; [|by repeat constructor].
  destruct (is_str _ _); [|destruct (existsb _ _); [|destruct (find _ _)]]; simpl;
    intros Htrue; repeat constructor; simpl; try done;
    intros _; by destruct (Htrue eq_refl).
Qed.

Lemma promise_all_Forall {X A} (P : Event -> Prop) now (f : X -> Lookup A) xs c r c' es :
  (forall x c, Forall P (f x c).2) ->
  promise_all now f xs c = (r, c', es) ->
  c' = apply_events now es c /\ Forall P es.
Proof.
  intros Hf [= _ <- <-]. split; [done|].
  assert (Hall : Forall P (concat (map snd (map (fun x => f x c) xs)))).
  { apply Forall_concat, Forall_forall. intros es Hes.
    apply list_elem_of_fmap in Hes as ([a es'] & -> & Hin).
    apply list_elem_of_fmap in Hin as (x & Hx & _).
    specialize (Hf x c). by rewrite <- Hx in Hf. }
  apply Forall_app. split; apply Forall_forall; intros e He;
    apply list_elem_of_filter in He as [_ He]; revert e He; by apply Forall_forall.
Qed.

Lemma grounded_refl up now c : grounded up now c c.
Proof. intros i Hi. by left. Qed.

Lemma grounded_apply_events up now c c0 es :
  grounded up now c c0 -> Forall (classifier_event up) es ->
  grounded up now c (apply_events now es c0).
Proof.
  revert c0. induction es as [|e es IH]; intros c0 Hc0 Hes; [done|].
  apply Forall_cons in Hes as [He Hes]. simpl. apply IH; [|done].
  destruct e as [q|[t i v ttl|i v ttl|k v ttl]]; try done.
  intros j. simpl. destruct (decide (i = j)) as [->|Hne].
  - rewrite lookup_insert_eq. unfold live, mk_entry. simpl.
    destruct (now <=? _); [|done]. intros [= ->]. right. by apply He.
  - rewrite lookup_insert_ne by done. apply Hc0.
Qed.

Lemma regional_loop_grounded host up now page langs allMovies c c0 acc c' es :
  grounded up now c c0 ->
  regional_loop host up now page langs allMovies c0 = (Some acc, c', es) ->
  exists added,
    acc = allMovies ++ added
    /\ Forall (fun m =>
         (exists lang answer,
            lang ∈ langs
            /\ list_query up (DiscoverMovie (todayIST host) lang "IN" "0" page) = Some answer
            /\ m ∈ default [] answer)
         /\ (live now (hindi c !! Raw.id m) = Some true \/ qualifies up (Raw.id m))) added.
Proof.
  revert allMovies c0 es. induction langs as [|lang rest IH]; intros allMovies c0 es Hc0;
    cbn [regional_loop].
  { intros [= <- _ _]. exists []. by rewrite app_nil_r. }
  destruct (25 <=? List.length allMovies)%nat.
  { intros [= <- _ _]. exists []. by rewrite app_nil_r. }
  intros (regionalMovies & c1 & es1 & es2 & Hquery & Hrest & _)%bind_Some_inv.
  apply bind_Some_inv in Hrest as (checks & c2 & es3 & es4 & Hall & Hrest & _).
  apply query_run in Hquery as (-> & answer & Hanswer & ->).
  pose proof (promise_all_run _ _ _ _ _ _ _ Hall) as ->.
  apply (promise_all_Forall (classifier_event up)) in Hall as [-> Hes3];
    [|intros; apply hasHindiAudio_classifier_events].
  apply IH in Hrest as (added & -> & Hadded); [|by apply grounded_apply_events].
  exists (keep_checked (default [] answer)
            ((fun m => (hasHindiAudio up now (Raw.id m) c0).1) <$> default [] answer) ++ added).
  split; [by rewrite app_assoc|]. apply Forall_app. split.
  - apply Forall_forall. intros m [Hin Htrue]%keep_checked_elem_of. split.
    + exists lang, answer. split; [by left | done].
    + apply hasHindiAudio_true in Htrue as [Hcached|Hup]; [by apply Hc0 | by right].
  - eapply Forall_impl; [exact Hadded|]. intros m [(lang' & answer' & Hlang & H) Hm].
    split; [|done]. exists lang', answer'. split; [by right | done].
Qed.

(** X16.  The loop over the regional languages only appends: the list it
    ends with starts with the list it was given, so no Hindi item is
    dropped or moved by the fan-out.  Every item that it appends was
    returned by the query of one of the languages, and has Hindi audio
    by the classifier: the cache of the request serves the answer [true]
    for it, or the upstream detail of the item shows one of the three
    signals. *)
Theorem regional_loop_appends_classified (host : Host) (up : Upstream) (now : Z)
    (page : JsNum) (langs : list string) (allMovies : list Raw.t) (c : Cache)
    (acc : list Raw.t) (c' : Cache) (es : list Event) :
  regional_loop host up now page langs allMovies c = (Some acc, c', es) ->
  exists added,
    acc = allMovies ++ added
    /\ Forall (fun m =>
         (exists lang answer,
            lang ∈ langs
            /\ list_query up (DiscoverMovie (todayIST host) lang "IN" "0" page) = Some answer
            /\ m ∈ default [] answer)
         /\ (live now (hindi c !! Raw.id m) = Some true \/ qualifies up (Raw.id m))) added.
Proof. apply regional_loop_grounded, grounded_refl. Qed.

Lemma regional_loop_appends_classified_witness :
  exists added,
    movies 100 10 "hi" ++ movies 200 8 "ta" ++ movies 300 8 "te"
    = movies 100 10 "hi" ++ added
    /\ Forall (fun m =>
         (exists lang answer,
            lang ∈ regionalLangs
            /\ list_query upstream_regional (DiscoverMovie (todayIST host0) lang "IN" "0" (Int 1))
               = Some answer
            /\ m ∈ default [] answer)
         /\ (live 0 (hindi empty_cache !! Raw.id m) = Some true
             \/ qualifies upstream_regional (Raw.id m))) added.
Proof.
  destruct (regional_loop host0 upstream_regional 0 (Int 1) regionalLangs (movies 100 10 "hi")
              empty_cache) as [[r c'] es] eqn:Hrun.
  assert (Hr : r = Some (movies 100 10 "hi" ++ movies 200 8 "ta" ++ movies 300 8 "te")).
  { vm_compute in Hrun. injection Hrun as <- _ _. reflexivity. }
  subst r.
  exact (regional_loop_appends_classified host0 upstream_regional 0 (Int 1) regionalLangs
           (movies 100 10 "hi") empty_cache _ c' es Hrun).
Defined.

(** ** The meta handler *)

Lemma drop_chars_prefix p s : String.prefix p s = true -> p +:+ drop_chars (String.length p) s = s.
Proof.
  revert s. induction p as [|a p IH]; intros s; [done|].
  destruct s as [|b s]; [done|].
  change (String.prefix (String a p) (String b s))
    with (if Ascii.ascii_dec a b then String.prefix p s else false).
  change (String a p +:+ drop_chars (String.length (String a p)) (String b s))
    with (String a (p +:+ drop_chars (String.length p) s)).
  destruct (Ascii.ascii_dec a b) as [->|]; [|done].
  intros H. by rewrite IH.
Qed.

Lemma remove_first_prefix p s :
  String.prefix p s = true -> remove_first p s = drop_chars (String.length p) s.
Proof. intros H. destruct s; cbn [remove_first]; by rewrite H. Qed.

(** The identifier is put together again from its parts. *)
Lemma clean_id_round_trip id : startsWith id "tt" = true -> "tt" +:+ remove_first "tt" id = id.
Proof.
  unfold startsWith. intros H. rewrite remove_first_prefix by done.
  by apply drop_chars_prefix.
Qed.

(** The runs of the meta handler on a miss for an identifier with the
    prefix: no answer and no change, or a new meta object that is stored
    for a day. *)
Lemma metaHandler_miss host mup now type id c :
  startsWith id "tt" = true ->
  meta_miss now type id c ->
  ((metaHandler host mup now type id c).1 = (None, c)
   /\ (forall key m ttl, MSet key m ttl ∉ (metaHandler host mup now type id c).2))
  \/ exists item es,
       metaHandler host mup now type id c
       = (Some (CMeta (build_meta host type (remove_first "tt" id) item)),
          <[metaKey type (remove_first "tt" id)
            := mk_entry now (CMeta (build_meta host type (remove_first "tt" id) item))
                 (Some 86400)]> c,
          es ++ [MSet (metaKey type (remove_first "tt" id))
                   (build_meta host type (remove_first "tt" id) item) 86400]).
Proof.
  intros Htt Hmiss. unfold metaHandler. unfold meta_miss in Hmiss. rewrite Htt, Hmiss. simpl.
  assert (Hno1 : forall q key m ttl, MSet key m ttl ∉ [MQuery q]).
  { intros q key m ttl [H|H%elem_of_nil]%elem_of_cons; done. }
  assert (Hno2 : forall q q' key m ttl, MSet key m ttl ∉ [MQuery q; MQuery q']).
  { intros q q' key m ttl [H|[H|H%elem_of_nil]%elem_of_cons]%elem_of_cons; done. }
  destruct (find_imdb mup _) as [data|]; [|left; split; [done | intros; apply Hno1]].
  destruct (if String.eqb type "movie" then _ else _) as [[|first rest]|];
    [left; split; [done | intros; apply Hno1] | | left; split; [done | intros; apply Hno1]].
  destruct (item_detail mup _ _) as [item|]; [|left; split; [done | intros; apply Hno2]].
  right. by exists item, [MQuery (Find (remove_first "tt" id));
                          MQuery (ItemDetail (if String.eqb type "series" then Series else Movie)
                                    (found_id first))].
Qed.

Lemma metaHandler_foreign host mup now type id c :
  startsWith id "tt" = false -> metaHandler host mup now type id c = (None, c, []).
Proof. intros H. unfold metaHandler. by rewrite H. Qed.

Lemma year_of_Some item y :
  year_of item = Some y -> y <> "" /\ (String.length y <= 4)%nat.
Proof.
  unfold year_of.
  destruct (String.eqb_spec
              (substring 0 4 (or_str (ItemData.release_date item)
                                (or_str (ItemData.first_air_date item) ""))) "")
    as [|Hne]; [done|].
  intros [= <-]. split; [done|].
  generalize (or_str (ItemData.release_date item) (or_str (ItemData.first_air_date item) "")).
  intros s. destruct s as [|a [|b [|c [|d s]]]]; simpl; try lia.
  destruct s; simpl; lia.
Qed.

Lemma cast_of_length credits : (List.length (cast_of credits) <= 5)%nat.
Proof.
  unfold cast_of, slice0. destruct credits as [[[cast|] crew]|]; simpl; try lia.
  rewrite length_fmap, length_take. lia.
Qed.

(** X17.  The meta object that the handler builds on a miss is the one
    asked for: its identifier is the identifier of the request, put
    together again from the prefix and the rest, and its type is the type
    of the request.  It has a name and a description that are not empty,
    at most five cast names, a runtime only under the type [movie], and a
    release year of at most four characters when it has one. *)
Theorem metaHandler_builds_requested (host : Host) (mup : MetaUpstream) (now : Z)
    (type id : string) (c : MetaCache) (v : Cached) :
  meta_miss now type id c ->
  (metaHandler host mup now type id c).1.1 = Some v ->
  exists m, v = CMeta m
    /\ FullMeta.id m = id
    /\ FullMeta.type m = type
    /\ FullMeta.name m <> ""
    /\ FullMeta.description m <> ""
    /\ (List.length (FullMeta.cast m) <= 5)%nat
    /\ (forall r, FullMeta.runtime m = Some r -> type = "movie")
    /\ (forall y, FullMeta.releaseInfo m = Some y -> y <> "" /\ (String.length y <= 4)%nat).
Proof.
  intros Hmiss. destruct (startsWith id "tt") eqn:Htt;
    [|by rewrite metaHandler_foreign].
  destruct (metaHandler_miss host mup now type id c Htt Hmiss)
    as [[Hrun _] | (item & es & Hrun)]; rewrite Hrun; simpl; [done|].
  intros [= <-]. eexists. split; [done|]. simpl.
  split; [by apply clean_id_round_trip|]. split; [done|].
  split; [by repeat apply or_str_nonempty|]. split; [by apply or_str_nonempty|].
  split; [apply cast_of_length|]. split; [|apply year_of_Some].
  intros r. unfold runtime_of. destruct (ItemData.runtime item) as [minutes|]; [|done].
  destruct (String.eqb_spec type "movie"); [done|]. done.
Qed.

Lemma metaHandler_builds_requested_witness :
  exists m, CMeta (build_meta host0 "movie" "0111161" item_film) = CMeta m
    /\ FullMeta.id m = "tt0111161"
    /\ FullMeta.type m = "movie"
    /\ FullMeta.name m <> ""
    /\ FullMeta.description m <> ""
    /\ (List.length (FullMeta.cast m) <= 5)%nat
    /\ (forall r, FullMeta.runtime m = Some r -> "movie" = "movie")
    /\ (forall y, FullMeta.releaseInfo m = Some y -> y <> "" /\ (String.length y <= 4)%nat).
Proof.
  apply (metaHandler_builds_requested host0 meta_upstream_film 0 "movie" "tt0111161" ∅).
  - reflexivity.
  - reflexivity.
Defined.

(** X18.  The meta handler memoizes.  A meta object that it has built is
    stored for a day: a request for the same type and identifier within
    the day is given the same object, with no upstream call and no change
    of the cache, whatever the upstream would answer now. *)
Theorem metaHandler_memoized (host host' : Host) (mup mup' : MetaUpstream) (now now' : Z)
    (type id : string) (c : MetaCache) (v : Cached) :
  meta_miss now type id c ->
  (metaHandler host mup now type id c).1.1 = Some v ->
  now' <= now + 86400 * 1000 ->
  metaHandler host' mup' now' type id (metaHandler host mup now type id c).1.2
  = (Some v, (metaHandler host mup now type id c).1.2, []).
Proof.
  intros Hmiss. destruct (startsWith id "tt") eqn:Htt;
    [|by rewrite metaHandler_foreign].
  destruct (metaHandler_miss host mup now type id c Htt Hmiss)
    as [[Hrun _] | (item & es & Hrun)]; rewrite Hrun; simpl; [done|].
  intros [= <-] Hnow'. unfold metaHandler. rewrite Htt. cbn [negb]. cbv zeta.
  by rewrite lookup_insert_eq, live_mk_entry.
Qed.

Lemma metaHandler_memoized_witness :
  metaHandler host0 meta_upstream_down 86400000 "movie" "tt0111161"
    (metaHandler host0 meta_upstream_film 0 "movie" "tt0111161" ∅).1.2
  = (Some (CMeta (build_meta host0 "movie" "0111161" item_film)),
     (metaHandler host0 meta_upstream_film 0 "movie" "tt0111161" ∅).1.2, []).
Proof.
  apply (metaHandler_memoized host0 host0 meta_upstream_film meta_upstream_down 0 86400000
           "movie" "tt0111161" ∅).
  - reflexivity.
  - reflexivity.
  - lia.
Defined.

(** X19.  The meta handler keeps no mark of a failure.  When it answers
    [null] (the identifier lacks the prefix, a call has failed, or nothing
    was found), the cache is as before, and the same request at any later
    time runs in the same way: every upstream call is sent again.  The
    handler stores nothing but a meta object that it hands out, under the
    key of the request and for 86400 seconds. *)
Theorem metaHandler_null_not_cached (host : Host) (mup : MetaUpstream) (now now' : Z)
    (type id : string) (c : MetaCache) :
  ((metaHandler host mup now type id c).1.1 = None ->
   (metaHandler host mup now type id c).1.2 = c
   /\ (now <= now' ->
       metaHandler host mup now' type id c = metaHandler host mup now type id c))
  /\ (forall key m ttl,
        MSet key m ttl ∈ (metaHandler host mup now type id c).2 ->
        (metaHandler host mup now type id c).1.1 = Some (CMeta m)
        /\ key = metaKey type (remove_first "tt" id) /\ ttl = 86400).
Proof.
  destruct (startsWith id "tt") eqn:Htt.
  2: { rewrite !metaHandler_foreign by done. simpl. split; [done|].
       by intros key m ttl ?%elem_of_nil. }
  destruct (truthy_cached (live now (c !! metaKey type (remove_first "tt" id)))) eqn:Hhit.
  - assert (Hrun : metaHandler host mup now type id c
                   = (live now (c !! metaKey type (remove_first "tt" id)), c, [])).
    { unfold metaHandler. by rewrite Htt, Hhit. }
    rewrite Hrun. simpl. split; [|by intros key m ttl ?%elem_of_nil].
    intros Hnone. rewrite Hnone in Hhit. done.
  - split.
    + intros Hnone. destruct (metaHandler_miss host mup now type id c Htt Hhit)
        as [[Hrun _] | (item & es & Hrun)]; [|by rewrite Hrun in Hnone].
      split; [by rewrite Hrun|]. intros Hle.
      assert (Hmiss' : truthy_cached (live now' (c !! metaKey type (remove_first "tt" id)))
                       = false).
      { destruct (live now' (c !! metaKey type (remove_first "tt" id))) as [w|] eqn:Hlive;
          [|done].
        apply (live_later now) in Hlive; [|done]. by rewrite Hlive in Hhit. }
      revert Hnone. unfold metaHandler. rewrite Htt, Hhit, Hmiss'. cbn [negb]. cbv zeta.
      destruct (find_imdb mup _) as [data|]; [|done].
      destruct (if String.eqb type "movie" then _ else _) as [[|first rest]|]; try done.
      by destruct (item_detail mup _ _).
    + intros key m ttl. destruct (metaHandler_miss host mup now type id c Htt Hhit)
        as [[_ Hno] | (item & es & Hrun)]; [by intros ?%Hno|].
      revert Hrun. unfold metaHandler. rewrite Htt, Hhit. simpl.
      destruct (find_imdb mup _) as [data|]; [|by intros [= _ _]].
      destruct (if String.eqb type "movie" then _ else _) as [[|first rest]|];
        [by intros [= _ _] | | by intros [= _ _]].
      destruct (item_detail mup _ _) as [item'|]; [|by intros [= _ _]].
      intros _ Hin. simpl.
      apply elem_of_cons in Hin as [|Hin]; [done|].
      apply elem_of_cons in Hin as [|Hin]; [done|].
      apply list_elem_of_singleton in Hin as [= -> -> ->]. done.
Qed.

(** ** Failures of the item lookups *)

Section Completes.
Variable host : Host.
Variable up : Upstream.
Variable now : Z.

Hypothesis lists_answered : forall q, is_list_query q = true -> fails up q = false.

Lemma completes_ret {A} (a : A) : completes (ret a).
Proof. intros c. by exists a, c, []. Qed.

Lemma completes_bind {A B} (m : M A) (k : A -> M B) :
  completes m -> (forall a, completes (k a)) -> completes (bind m k).
Proof.
  intros Hm Hk c. destruct (Hm c) as (a & c1 & es1 & Hrun).
  destruct (Hk a c1) as (b & c2 & es2 & Hrun'). exists b, c2, (es1 ++ es2).
  unfold bind. by rewrite Hrun, Hrun'.
Qed.

Lemma completes_query call : is_list_query call = true -> completes (query up call).
Proof.
  intros Hlist c. pose proof (lists_answered call Hlist) as Hok. unfold query.
  destruct (list_query up call) as [results|] eqn:Hup.
  - by eexists _, _, _.
  - destruct call; simpl in Hlist, Hok; try done; by rewrite Hup in Hok.
Qed.

Lemma completes_promise_all {X A} (f : X -> Lookup A) xs : completes (promise_all now f xs).
Proof. intros c. unfold promise_all. by eexists _, _, _. Qed.

Lemma completes_format_all format items : completes (format_all now format items).
Proof.
  apply completes_bind; [apply completes_promise_all|]. intros a. apply completes_ret.
Qed.

Lemma completes_regional_loop page langs allMovies :
  completes (regional_loop host up now page langs allMovies).
Proof.
  revert allMovies. induction langs as [|lang rest IH]; intros allMovies;
    cbn [regional_loop]; [apply completes_ret|].
  destruct (25 <=? List.length allMovies)%nat; [apply completes_ret|].
  apply completes_bind; [by apply completes_query|]. intros regionalMovies.
  apply completes_bind; [apply completes_promise_all|]. intros checks. apply IH.
Qed.

Lemma completes_fetch req page : completes (fetch host up now req page).
Proof.
  unfold fetch. destruct (negb _).
  - destruct (String.eqb (type req) "movie").
    + unfold search_movies. apply completes_bind; [by apply completes_query|].
      intros movies. apply completes_bind; [|intros; apply completes_format_all].
      destruct (String.eqb (id req) "indian_latest").
      { apply completes_bind; [apply completes_promise_all|]. intros; apply completes_ret. }
      destruct (String.eqb (id req) "hollywood_latest"); apply completes_ret.
    + destruct (String.eqb (type req) "series"); [|apply completes_ret].
      unfold search_series. apply completes_bind; [by apply completes_query|].
      intros series. apply completes_format_all.
  - destruct (_ && _).
    { apply completes_bind; [by apply completes_query|].
      intros movies. apply completes_format_all. }
    destruct (_ && _).
    { unfold indian_latest. apply completes_bind; [by apply completes_query|].
      intros allMovies. apply completes_bind; [apply completes_regional_loop|].
      intros allMovies'. apply completes_format_all. }
    destruct (_ && _); [|apply completes_ret].
    apply completes_bind; [by apply completes_query|].
    intros series. apply completes_format_all.
Qed.
End Completes.

(** X20.  A failure of an item lookup is never fatal.  When the upstream
    answers the list queries, the [try] block of the handler runs to its
    end whatever becomes of the calls for the external identifiers and for
    the item details, and on a miss the handler answers with the list that
    it has fetched: an item whose lookup has failed is left out or
    classified [false], and the request does not fall back to the empty
    answer of the [catch]. *)
Theorem lookup_failures_not_fatal (host : Host) (up : Upstream) (now : Z) (req : Request)
    (c : Cache) :
  (forall q, is_list_query q = true -> fails up q = false) ->
  miss now req c ->
  exists metas c1 es1,
    fetch host up now req (page now req c) c = (Some metas, c1, es1)
    /\ catalogHandler host up now req c
       = (respond (Items metas),
          apply_events now (remember_events req (cacheKey now req c) metas) c1,
          es1 ++ remember_events req (cacheKey now req c) metas).
Proof.
  intros Hup Hmiss.
  destruct (completes_fetch host up now Hup req (page now req c) c) as (metas & c1 & es1 & Hrun).
  exists metas, c1, es1. split; [done|].
  destruct (catalogHandler_inv host up now req c)
    as [(v & Hlive & Hhit & _) | [(_ & c' & es & Hfetch & _) | (_ & l & c2 & es2 & Hfetch & Hh)]].
  - unfold miss in Hmiss. rewrite Hlive in Hmiss. congruence.
  - congruence.
  - rewrite Hrun in Hfetch. by injection Hfetch as <- <- <-.
Qed.

Lemma lookup_failures_not_fatal_witness :
  exists metas c1 es1,
    fetch host0 upstream_details_down 0 (request_indian 0)
      (page 0 (request_indian 0) empty_cache) empty_cache = (Some metas, c1, es1)
    /\ catalogHandler host0 upstream_details_down 0 (request_indian 0) empty_cache
       = (respond (Items metas),
          apply_events 0
            (remember_events (request_indian 0) (cacheKey 0 (request_indian 0) empty_cache) metas)
            c1,
          es1 ++ remember_events (request_indian 0)
                   (cacheKey 0 (request_indian 0) empty_cache) metas).
Proof.
  apply (lookup_failures_not_fatal host0 upstream_details_down 0 (request_indian 0) empty_cache).
  - intros q Hq. by destruct q.
  - reflexivity.
Defined.
